(** * FTSD: four-digit fourteen-segment display with a revolving message

    A shallow embedding of the Arduino sketch [cc_FTSD.ino]: the glyph
    encoder [translate], the boot code [setup], and one pass of [loop]
    (scan-out of the four digits, frame counter, serial replacement of the
    message and its persistence in the EEPROM).

    Data model, following the AVR target of the sketch:
    - [byte] variables ([i], [j], [loops], [temp], [mesgLen], [high],
      [low]) are [Z] values with the wrap-around modulo 256 written out;
    - [unsigned int] glyphs are [Z] values below 2^16;
    - a [char] is an 8-bit cell, [Byte.byte]; on AVR [char] is signed, so
      its value in an integer expression is [char_to_int], in -128..127;
    - an Arduino [String] is the list of its characters ([concat] of a
      character appends one cell, whatever the character; indexing out of
      range yields the character 0);
    - the EEPROM is a finite map from addresses to cells, an address
      never written reading as the erased value 0xFF.

    The pin set-up and the texts printed on the serial console have no
    bearing on the state and are left out. The pin activity of one digit
    of the scan and the helper [getDigit], which the sketch defines and
    never calls, are modelled apart from the state. *)

From Stdlib Require Import ZArith Lia List Bool.
From Stdlib Require Import Strings.Byte Strings.String.
From stdpp Require Import base option list numbers gmap.

Local Open Scope Z_scope.

(** ** Machine integers and characters *)

Module Mach.

(** Conversion to [byte] (uint8_t): reduction modulo 2^8. *)
Definition to_byte (z : Z) : Z := z mod 256.

(** The unsigned value of an 8-bit cell. *)
Definition Z_of_cell (b : byte) : Z := Z.of_N (Byte.to_N b).

(** The cell holding the low eight bits of [z]. *)
Definition cell_of_Z (z : Z) : byte :=
  match Byte.of_N (Z.to_N (z mod 256)) with
  | Some b => b
  | None => x00
  end.

(** Integer promotion of a (signed) [char]. *)
Definition char_to_int (c : byte) : Z :=
  let n := Z_of_cell c in
  if n <? 128 then n else n - 256.

(** C's [a % b] on [int]: undefined when [b] is zero, truncating
    otherwise. *)
Definition c_mod (a b : Z) : option Z :=
  if b =? 0 then None else Some (Z.rem a b).

End Mach.
Export Mach.

(** ** Arduino [String] *)

Module WString.

Definition concat (s : list byte) (c : byte) : list byte := s ++ [c].

(** [length()]: the number of characters held. The field is an
    [unsigned int]; a string of 2^16 characters or more does not fit the
    address space of the target, so no wrap-around is written here. *)
Definition length (s : list byte) : Z := Z.of_nat (List.length s).

(** [operator[]] and [charAt]: the character 0 out of range. *)
Definition charAt (s : list byte) (index : Z) : byte :=
  if (0 <=? index) && (index <? length s)
  then nth (Z.to_nat index) s x00
  else x00.

End WString.

(** ** The font tables *)

Definition NEXTDIGIT : Z := 0x40.
Definition DIGITSHIFT : Z := 6.
Definition HIGHSHIFT : Z := 8.
Definition LOWMASK : Z := 0x00FF.
Definition DIGITDIFF : Z := 0x30.
Definition LOWERCASEDIFF : Z := 0x61.
Definition UPPERCASEDIFF : Z := 0x41.

Definition segTransNum : list Z :=
  [ 0x08BF; 0x0086; 0x1099; 0x010F; 0x1126;
    0x210D; 0x1239; 0x0881; 0x113F; 0x210F ].

Definition segTransUpp : list Z :=
  [ 0x0586; 0x054F; 0x0039; 0x044F; 0x1039; 0x1131; 0x013D; 0x1136;
    0x0449; 0x0851; 0x12B0; 0x0038; 0x20B6; 0x2236; 0x003F; 0x10B1;
    0x023F; 0x12B1; 0x112D; 0x0441; 0x003E; 0x2206; 0x0A36; 0x2A80;
    0x2480; 0x0889 ].

Definition segTransLow : list Z :=
  [ 0x1A08; 0x1238; 0x1118; 0x090E; 0x0382; 0x1580; 0x210F; 0x1230;
    0x0104; 0x0850; 0x06C0; 0x0440; 0x1514; 0x1210; 0x111C; 0x3030;
    0x2107; 0x1110; 0x0308; 0x1540; 0x001C; 0x0204; 0x0A14; 0x2A80;
    0x2880; 0x1808 ].

(** Array read; the three tables are only read inside their bounds. *)
Definition table_get (tbl : list Z) (k : Z) : Z := nth (Z.to_nat k) tbl 0.

(** ** The glyph encoder *)

Definition isDigit (c : Z) : bool := (0x30 <=? c) && (c <=? 0x39).
Definition isLowerCase (c : Z) : bool := (0x61 <=? c) && (c <=? 0x7A).
Definition isUpperCase (c : Z) : bool := (0x41 <=? c) && (c <=? 0x5A).

(** The [switch] of [translate], on the character codes of its labels. *)
Definition translate_switch (c : Z) : Z :=
  match c with
  | 0x21 => 0x0C81  (* exclamation mark *)
  | 0x22 => 0x0042  (* double quote *)
  | 0x23 => 0x154E  (* hash *)
  | 0x24 => 0x2649  (* dollar *)
  | 0x25 => 0x08A2  (* percent *)
  | 0x26 => 0x3B91  (* ampersand *)
  | 0x27 => 0x0002  (* apostrophe *)
  | 0x28 => 0x0280  (* left parenthesis *)
  | 0x29 => 0x2800  (* right parenthesis *)
  | 0x2A => 0x2EC0  (* asterisk *)
  | 0x2B => 0x1540  (* plus *)
  | 0x2C => 0x0800  (* comma *)
  | 0x2D => 0x1100  (* minus *)
  | 0x2E => 0x0400  (* full stop *)
  | 0x2F => 0x0880  (* slash *)
  | 0x3A => 0x0440  (* colon *)
  | 0x3B => 0x0840  (* semicolon *)
  | 0x3C => 0x0888  (* less than *)
  | 0x3D => 0x1108  (* equals *)
  | 0x3E => 0x2208  (* greater than *)
  | 0x3F => 0x0503  (* question mark *)
  | 0x40 => 0x1A37  (* at *)
  | 0x5B => 0x0039  (* left bracket *)
  | 0x5C => 0x2200  (* backslash *)
  | 0x5D => 0x000F  (* right bracket *)
  | 0x5E => 0x0A00  (* caret *)
  | 0x5F => 0x0008  (* underscore *)
  | 0x60 => 0x2000  (* backquote *)
  | 0x7B => 0x1280  (* left brace *)
  | 0x7C => 0x0006  (* vertical bar *)
  | 0x7D => 0x2900  (* right brace *)
  | 0x7E => 0x0914  (* tilde *)
  | _ => 0
  end.

Definition translate (c : byte) : Z :=
  let c := char_to_int c in
  if isDigit c then table_get segTransNum (c - DIGITDIFF)
  else if isLowerCase c then table_get segTransLow (c - LOWERCASEDIFF)
  else if isUpperCase c then table_get segTransUpp (c - UPPERCASEDIFF)
  else translate_switch c.

(** ** The EEPROM *)

Module EEPROM.

Definition read (ee : gmap Z byte) (idx : Z) : byte := default xff (ee !! idx).

Definition write (ee : gmap Z byte) (idx : Z) (val : byte) : gmap Z byte :=
  <[idx := val]> ee.

(** A sequence of writes, performed from left to right. *)
Definition write_all (ee : gmap Z byte) (ws : list (Z * byte)) : gmap Z byte :=
  foldl (fun ee w => write ee w.1 w.2) ee ws.

End EEPROM.

(** ** Program state

    The globals that live across calls of [loop], and the EEPROM. The
    scratch globals [i], [high], [low], [temp], [c] and [t] are assigned
    before every use and are kept local to the functions below. *)

Record State : Type := mkState {
  message : list byte;
  mesgLen : Z;
  j : Z;
  loops : Z;
  eeprom : gmap Z byte
}.

Definition default_message : list byte :=
  list_byte_of_string "PLEASE SET THIS MESSAGE VIA A SERIAL LINK   ".

(** ** [setup] *)

(** The [do ... while] of [setup]. Each turn reads one cell, appends it
    and then tests the counter and the character just appended. *)
Fixpoint read_message (fuel : nat) (ee : gmap Z byte) (temp i : Z)
    (message : list byte) : option (list byte) :=
  match fuel with
  | O => None
  | S fuel =>
      let c := EEPROM.read ee i in
      let message := WString.concat message c in
      let i := to_byte (i + 1) in
      if (i <=? temp) && negb (char_to_int c =? 0) && negb (char_to_int c =? 0xFF)
      then read_message fuel ee temp i message
      else Some message
  end.

Definition setup (ee : gmap Z byte) : option State :=
  let temp := Z_of_cell (EEPROM.read ee 0) in
  message ← (if (0 <? temp) && (temp <=? 128)
             then read_message 256 ee temp 1 []
             else Some default_message);
  Some {| message := message;
          mesgLen := to_byte (WString.length message);
          j := 0; loops := 0; eeprom := ee |}.

(** ** [loop] *)

(** *** Scan-out of one digit *)

Definition scan_index (s : State) (i : Z) : option Z :=
  c_mod (j s + 3 - i) (mesgLen s).

Definition scan_glyph (s : State) (i : Z) : option Z :=
  idx ← scan_index s i;
  Some (translate (WString.charAt (message s) idx)).

(** The two bytes shifted out for glyph [t] on digit [i]: [high] first,
    then [low]. *)
Definition shift_bytes (t i : Z) : Z * Z :=
  let high := to_byte (Z.shiftr t HIGHSHIFT) in
  let low := to_byte (Z.land t LOWMASK) in
  let high := to_byte (high + Z.shiftl i DIGITSHIFT) in
  (high, low).

Definition scan_digit (s : State) (i : Z) : option (Z * Z) :=
  t ← scan_glyph s i;
  Some (shift_bytes t i).

(** The [for] loop over the four digits: the list of the byte pairs
    shifted out, in order. *)
Definition refresh (s : State) : option (list (Z * Z)) :=
  mapM (scan_digit s) (seqZ 0 4).

(** *** Frame counter and window offset *)

Definition next_frame (s : State) : option State :=
  let loops := to_byte (loops s + 1) in
  if loops =? 10 then
    r ← c_mod (to_byte (j s + 1)) (mesgLen s);
    Some {| message := message s; mesgLen := mesgLen s;
            j := to_byte r; loops := 0; eeprom := eeprom s |}
  else
    Some {| message := message s; mesgLen := mesgLen s;
            j := j s; loops := loops; eeprom := eeprom s |}.

(** *** Serial input

    [rx] is the sequence of cells that [Serial.read] delivers during this
    pass of [loop]; [Serial.available] is positive while cells remain. *)

Definition Serial_available (rx : list byte) : Z := Z.of_nat (List.length rx).

(** The [while] loop draining the serial port into [message]. *)
Fixpoint accumulate (rx : list byte) (message : list byte) : list byte :=
  match rx with
  | [] => message
  | c :: rx => accumulate rx (WString.concat message c)
  end.

(** The EEPROM writes of a replacement, in program order: the length, the
    characters, the terminator. *)
Definition message_writes (message : list byte) (mesgLen : Z) : list (Z * byte) :=
  (0, cell_of_Z mesgLen)
  :: map (fun i => (i + 1, WString.charAt message i)) (seqZ 0 mesgLen)
  ++ [(mesgLen + 1, x00)].

Definition serial_input (rx : list byte) (s : State) : State :=
  if 0 <? Serial_available rx then
    let message := accumulate rx [] in
    if 0 <? WString.length message then
      let mesgLen := to_byte (WString.length message) in
      {| message := message; mesgLen := mesgLen; j := 0; loops := 0;
         eeprom := EEPROM.write_all (eeprom s) (message_writes message mesgLen) |}
    else
      {| message := message; mesgLen := mesgLen s;
         j := j s; loops := loops s; eeprom := eeprom s |}
  else s.

(** One pass of [loop]: the new state and the bytes shifted out. *)
Definition loop (rx : list byte) (s : State) : option (State * list (Z * Z)) :=
  out ← refresh s;
  s ← next_frame s;
  Some (serial_input rx s, out).

(** [n] passes of [loop] with no serial traffic. *)
Fixpoint cycles (n : nat) (s : State) : option State :=
  match n with
  | O => Some s
  | S n => sp ← loop [] s; cycles n sp.1
  end.

(** States the program can be in between two passes of [loop]. *)
Inductive reachable : State -> Prop :=
| reach_setup ee s : setup ee = Some s -> reachable s
| reach_loop rx s s' out : reachable s -> loop rx s = Some (s', out) -> reachable s'.

(** States reachable when no serial burst is longer than [n] cells. *)
Inductive reachable_within (n : Z) : State -> Prop :=
| within_setup ee s : setup ee = Some s -> reachable_within n s
| within_loop rx s s' out :
    reachable_within n s -> Serial_available rx <= n ->
    loop rx s = Some (s', out) -> reachable_within n s'.

(** ** Specification-side definitions *)

(** The punctuation table of the glyph encoder, as a lookup table. *)
Definition punctuation : list (byte * Z) :=
  [ ("!"%byte, 0x0C81); (x22, 0x0042); ("#"%byte, 0x154E); ("$"%byte, 0x2649);
    ("%"%byte, 0x08A2); ("&"%byte, 0x3B91); ("'"%byte, 0x0002); ("("%byte, 0x0280);
    (")"%byte, 0x2800); ("*"%byte, 0x2EC0); ("+"%byte, 0x1540); (","%byte, 0x0800);
    ("-"%byte, 0x1100); ("."%byte, 0x0400); ("/"%byte, 0x0880); (":"%byte, 0x0440);
    (";"%byte, 0x0840); ("<"%byte, 0x0888); ("="%byte, 0x1108); (">"%byte, 0x2208);
    ("?"%byte, 0x0503); ("@"%byte, 0x1A37); ("["%byte, 0x0039); ("\"%byte, 0x2200);
    ("]"%byte, 0x000F); ("^"%byte, 0x0A00); ("_"%byte, 0x0008); ("`"%byte, 0x2000);
    ("{"%byte, 0x1280); ("|"%byte, 0x0006); ("}"%byte, 0x2900); ("~"%byte, 0x0914) ].

Definition find_glyph (c : byte) (tbl : list (byte * Z)) : option Z :=
  snd <$> List.find (fun e => Byte.eqb c e.1) tbl.

Definition is_digit (c : byte) : bool :=
  (Z_of_cell "0" <=? Z_of_cell c) && (Z_of_cell c <=? Z_of_cell "9").
Definition is_lower (c : byte) : bool :=
  (Z_of_cell "a" <=? Z_of_cell c) && (Z_of_cell c <=? Z_of_cell "z").
Definition is_upper (c : byte) : bool :=
  (Z_of_cell "A" <=? Z_of_cell c) && (Z_of_cell c <=? Z_of_cell "Z").

(** The encoder as the classification in words: digit, lowercase letter,
    uppercase letter, punctuation table, blank; the first match wins. *)
Definition translate_classified (c : byte) : Z :=
  if is_digit c then table_get segTransNum (Z_of_cell c - Z_of_cell "0")
  else if is_lower c then table_get segTransLow (Z_of_cell c - Z_of_cell "a")
  else if is_upper c then table_get segTransUpp (Z_of_cell c - Z_of_cell "A")
  else match find_glyph c punctuation with
       | Some g => g
       | None => 0x0000
       end.

(** What the shift-register chain makes of a transmitted byte pair: the
    fourteen bits shifted first drive the segments, the top two bits of
    the high byte address the multiplexer. *)
Definition segments (tx : Z * Z) : Z :=
  Z.lor (Z.shiftl (Z.land tx.1 0x3F) 8) tx.2.
Definition digit_select (tx : Z * Z) : Z := Z.shiftr tx.1 6.

(** The cells [a], [a+1], ..., [a+n-1] of the EEPROM. *)
Definition stored (ee : gmap Z byte) (a n : Z) : list byte :=
  map (EEPROM.read ee) (seqZ a n).

(** The relation between the globals that [loop] relies on. *)
Definition scan_ok (s : State) : Prop :=
  1 <= mesgLen s /\
  mesgLen s = to_byte (WString.length (message s)) /\
  0 <= j s < mesgLen s /\
  0 <= loops s < 10.

(** The facts about one transmitted byte pair, as a boolean check. *)
Definition pack_check (t i : Z) : bool :=
  let high := Z.shiftr t HIGHSHIFT + Z.shiftl i DIGITSHIFT in
  let tx := shift_bytes t i in
  (tx.1 =? high) && (tx.2 =? Z.land t LOWMASK)
  && negb (Z.testbit t 14) && negb (Z.testbit t 15)
  && (high =? Z.lor (Z.shiftr t HIGHSHIFT) (Z.shiftl i DIGITSHIFT))
  && (Z.land (Z.shiftr t HIGHSHIFT) (Z.shiftl i DIGITSHIFT) =? 0)
  && (digit_select tx =? i) && (segments tx =? t).

#[global] Instance byte_eq_decision : EqDecision byte := Byte.byte_eq_dec.

(** The frame step in words: the counter goes up by one, and on reaching
    ten it restarts at zero while the window moves on by one, modulo the
    message length. *)
Definition tick (s : State) : State :=
  if loops s =? 9
  then {| message := message s; mesgLen := mesgLen s;
          j := (j s + 1) mod mesgLen s; loops := 0; eeprom := eeprom s |}
  else {| message := message s; mesgLen := mesgLen s;
          j := j s; loops := loops s + 1; eeprom := eeprom s |}.

(** Sample states. *)
Definition abcd : State :=
  {| message := list_byte_of_string "ABCD"; mesgLen := 4;
     j := 0; loops := 0; eeprom := ∅ |}.

Definition hello_mid_scroll : State :=
  {| message := list_byte_of_string "HELLO "; mesgLen := 6;
     j := 4; loops := 7; eeprom := ∅ |}.

(** Sample EEPROM contents: a stored length of three with a null, or an
    erased cell, in the second place. *)
Definition store_with_null : gmap Z byte :=
  EEPROM.write_all ∅ [(0, x03); (1, "A"%byte); (2, x00); (3, "B"%byte)].

Definition store_with_erased : gmap Z byte :=
  EEPROM.write_all ∅ [(0, x03); (1, "A"%byte); (2, xff); (3, "B"%byte)].

(** ** [getDigit]

    The helper is defined by the sketch and never called. [powTen] is an
    [unsigned int] (16 bits), the counter [k] a [byte]. *)

Definition to_uint (z : Z) : Z := z mod 65536.

(** C's [a / b] on unsigned operands: undefined when [b] is zero. *)
Definition c_div (a b : Z) : option Z :=
  if b =? 0 then None else Some (Z.quot a b).

(** The [for] loop of [getDigit], from the current [k] and [powTen]. *)
Fixpoint getDigit_loop (fuel : nat) (d k powTen : Z) : option Z :=
  match fuel with
  | O => None
  | S fuel =>
      if k <? d
      then getDigit_loop fuel d (to_byte (k + 1)) (to_uint (powTen * 10))
      else Some powTen
  end.

Definition getDigit (d n : Z) : option Z :=
  powTen ← getDigit_loop 256 d 1 1;
  q ← c_div n powTen;
  r ← c_mod q 10;
  Some (to_byte r).

(** ** The pins

    What one digit of the scan does on the three output pins. [shiftOut]
    is the Arduino core routine, here in its [MSBFIRST] order: for each
    bit from bit 7 down to bit 0, the data pin is set to the bit and the
    clock pin is pulsed. *)

Inductive pin_event : Type :=
| Strobe (level : bool)
| Data (level : bool)
| ClockPulse
| Delay (ms : Z).

Definition shiftOut (val : Z) : list pin_event :=
  flat_map (fun i => [Data (Z.testbit val (7 - i)); ClockPulse]) (seqZ 0 8).

(** The body of the [for] loop of [loop] after the bytes are computed. *)
Definition digit_trace (tx : Z * Z) : list pin_event :=
  [Strobe false] ++ shiftOut tx.1 ++ shiftOut tx.2 ++ [Strobe true; Delay 6].

(** The bits a shift register clocks in: the level of the data pin at
    each clock pulse. *)
Fixpoint clocked_bits (level : bool) (tr : list pin_event) : list bool :=
  match tr with
  | [] => []
  | Data b :: tr => clocked_bits b tr
  | ClockPulse :: tr => level :: clocked_bits level tr
  | _ :: tr => clocked_bits level tr
  end.

(** The bits expected for glyph [t] on digit [i]: the two address bits,
    then the fourteen segment bits from bit 13 down to bit 0. *)
Definition address_then_segments (t i : Z) : list bool :=
  [Z.testbit i 1; Z.testbit i 0]
  ++ map (fun k => Z.testbit t (13 - k)) (seqZ 0 14).

Definition trace_check (t i : Z) : bool :=
  bool_decide (clocked_bits false (digit_trace (shift_bytes t i))
               = address_then_segments t i).

Definition ab_message : State :=
  {| message := list_byte_of_string "AB"; mesgLen := 2;
     j := 1; loops := 3; eeprom := ∅ |}.

(** The characters the sketch recommends: digits and capitals. *)
Definition recommended : list byte :=
  list_byte_of_string "0123456789ABCDEFGHIJKLMNOPQRSTUVWXYZ".

Definition is_printable (c : byte) : bool :=
  (0x21 <=? Z_of_cell c) && (Z_of_cell c <=? 0x7E).


(** ** Machine integers: basic facts *)

Lemma Z_of_cell_range (b : byte) : 0 <= Z_of_cell b < 256.
Proof.
  unfold Z_of_cell. pose proof (Byte.to_N_bounded b). lia.
Qed.

Lemma cell_of_Z_of_cell (b : byte) : cell_of_Z (Z_of_cell b) = b.
Proof. destruct b; reflexivity. Qed.

Lemma Z_of_cell_of_Z (z : Z) : Z_of_cell (cell_of_Z z) = z mod 256.
Proof.
  unfold cell_of_Z, Z_of_cell.
  assert (Hr : 0 <= z mod 256 < 256) by (apply Z.mod_pos_bound; lia).
  destruct (Byte.of_N (Z.to_N (z mod 256))) as [b|] eqn:E.
  - apply Byte.to_of_N in E. rewrite E. lia.
  - apply Byte.of_N_None_iff in E. lia.
Qed.

Lemma to_byte_small (z : Z) : 0 <= z < 256 -> to_byte z = z.
Proof. intros H. unfold to_byte. apply Z.mod_small. lia. Qed.

Lemma to_byte_range (z : Z) : 0 <= to_byte z < 256.
Proof. unfold to_byte. apply Z.mod_pos_bound. lia. Qed.

Lemma char_to_int_zero (c : byte) : char_to_int c = 0 <-> c = x00.
Proof.
  split; [|intros ->; reflexivity].
  destruct c; vm_compute; intros H; solve [reflexivity | discriminate H].
Qed.

(** On the target a [char] never compares equal to [0xFF]. *)
Lemma char_to_int_not_255 (c : byte) : (char_to_int c =? 0xFF) = false.
Proof. destruct c; reflexivity. Qed.

Lemma c_mod_pos (a b : Z) : 0 <= a -> 0 < b -> c_mod a b = Some (a mod b).
Proof.
  intros Ha Hb. unfold c_mod.
  destruct (Z.eqb_spec b 0); [lia|].
  f_equal. apply Z.rem_mod_nonneg; lia.
Qed.

Lemma c_mod_zero (a : Z) : c_mod a 0 = None.
Proof. reflexivity. Qed.

(** A property checked on every number below [n] holds below [n]. *)
Lemma forallb_below (P : Z -> bool) (n : Z) :
  forallb P (seqZ 0 n) = true -> forall z, 0 <= z < n -> P z = true.
Proof.
  intros H z Hz. rewrite forallb_forall in H. apply H.
  apply list_elem_of_In, elem_of_seqZ. lia.
Qed.

(** ** The glyph encoder *)

Lemma translate_agrees (c : byte) : translate c = translate_classified c.
Proof. destruct c; reflexivity. Qed.

Lemma translate_range (c : byte) : 0 <= translate c < 2 ^ 14.
Proof.
  assert (H : (0 <=? translate c) && (translate c <? 2 ^ 14) = true)
    by (destruct c; reflexivity).
  apply andb_true_iff in H. destruct H as [H1 H2]. lia.
Qed.

Lemma punctuation_glyphs :
  Forall (fun e => translate e.1 = e.2) punctuation.
Proof. unfold punctuation. repeat constructor. Qed.

Lemma punctuation_keys_NoDup : NoDup (punctuation.*1).
Proof. compute_done. Qed.

(** C2: [translate] is a total function of the 8-bit character, with the
    classification taken in order: a decimal digit yields its entry of
    [segTransNum], a lowercase letter its entry of [segTransLow], an
    uppercase letter its entry of [segTransUpp], each of the 32
    punctuation characters its fixed glyph, and every other cell
    (control characters included) the blank glyph 0; every result is a
    16-bit value. *)
Theorem translate_total_first_match :
  (forall c, translate c = translate_classified c) /\
  (forall c, is_digit c = true ->
     translate c = table_get segTransNum (Z_of_cell c - Z_of_cell "0")) /\
  (forall c, is_lower c = true ->
     translate c = table_get segTransLow (Z_of_cell c - Z_of_cell "a")) /\
  (forall c, is_upper c = true ->
     translate c = table_get segTransUpp (Z_of_cell c - Z_of_cell "A")) /\
  List.length punctuation = 32%nat /\
  NoDup (punctuation.*1) /\
  (forall c g, (c, g) ∈ punctuation -> translate c = g) /\
  (forall c, is_digit c = false -> is_lower c = false -> is_upper c = false ->
     c ∉ punctuation.*1 -> translate c = 0) /\
  (forall c, Z_of_cell c < 0x20 \/ 0x7F <= Z_of_cell c -> translate c = 0) /\
  (forall c, 0 <= translate c < 2 ^ 16).
Proof.
  split; [exact translate_agrees|].
  split; [intros c H; destruct c; solve [reflexivity | discriminate H]|].
  split; [intros c H; destruct c; solve [reflexivity | discriminate H]|].
  split; [intros c H; destruct c; solve [reflexivity | discriminate H]|].
  split; [reflexivity|].
  split; [exact punctuation_keys_NoDup|].
  split.
  { intros c g H. pose proof punctuation_glyphs as HF.
    rewrite Forall_forall in HF. exact (HF (c, g) H). }
  split.
  { intros c Hd Hl Hu Hp.
    destruct c;
      solve [ reflexivity | discriminate Hd | discriminate Hl | discriminate Hu
            | exfalso; apply Hp; compute_done ]. }
  split.
  { intros c H.
    assert (Hb : (Z_of_cell c <? 0x20) || (0x7F <=? Z_of_cell c) = true).
    { apply orb_true_iff. destruct H; [left|right]; lia. }
    clear H. destruct c; solve [reflexivity | discriminate Hb]. }
  intros c. pose proof (translate_range c). lia.
Qed.

Lemma translate_total_first_match_witness :
  translate "7" = 0x0881 /\ translate "q" = 0x2107 /\ translate "Q" = 0x023F /\
  translate "&" = 0x3B91 /\ translate "010" = 0 /\ translate x07 = 0.
Proof.
  destruct translate_total_first_match
    as (_ & Hd & Hl & Hu & _ & _ & Hp & Hn & Hc & _).
  split; [exact (Hd "7"%byte eq_refl)|].
  split; [exact (Hl "q"%byte eq_refl)|].
  split; [exact (Hu "Q"%byte eq_refl)|].
  split.
  { apply Hp. compute_done. }
  split.
  { apply Hn; try reflexivity. compute_done. }
  apply Hc. left. vm_compute. reflexivity.
Defined.

(** ** The transmitted bytes *)

Lemma pack_check_all (t i : Z) :
  0 <= t < 2 ^ 14 -> 0 <= i < 4 -> pack_check t i = true.
Proof.
  intros Ht Hi.
  pose (P := fun t => forallb (fun i => pack_check t i) (seqZ 0 4)).
  assert (H : P t = true).
  { apply (forallb_below P (2 ^ 14)); [vm_compute; reflexivity | exact Ht]. }
  exact (forallb_below _ 4 H i Hi).
Qed.

(** For any glyph with bits 14 and 15 clear the digit address is added
    without a carry. *)
Lemma pack_no_carry (t i : Z) :
  0 <= t < 2 ^ 14 -> 0 <= i < 4 ->
  let high := Z.shiftr t HIGHSHIFT + Z.shiftl i DIGITSHIFT in
  shift_bytes t i = (high, Z.land t LOWMASK) /\
  Z.testbit t 14 = false /\ Z.testbit t 15 = false /\
  high = Z.lor (Z.shiftr t HIGHSHIFT) (Z.shiftl i DIGITSHIFT) /\
  Z.land (Z.shiftr t HIGHSHIFT) (Z.shiftl i DIGITSHIFT) = 0 /\
  digit_select (shift_bytes t i) = i /\
  segments (shift_bytes t i) = t.
Proof.
  intros Ht Hi high. pose proof (pack_check_all t i Ht Hi) as H.
  unfold pack_check in H. fold high in H.
  destruct (shift_bytes t i) as [h l] eqn:E. cbn [fst snd] in H.
  repeat (apply andb_true_iff in H; destruct H as [H ?]).
  repeat match goal with
         | X : negb _ = true |- _ => apply negb_true_iff in X
         | X : (_ =? _) = true |- _ => apply Z.eqb_eq in X
         end.
  subst h l. repeat split; assumption.
Qed.

(** C3: for every character [c] and digit [i] in 0..3 the two bytes sent
    are [high = (translate c >> 8) + (i << 6)] and
    [low = translate c & 0xFF]; bits 14 and 15 of every glyph are clear,
    so the addition carries nowhere and equals the bitwise or: the two
    top bits of [high] are the digit address and the other fourteen bits
    sent are the glyph. *)
Theorem shift_bytes_digit_address (c : byte) (i : Z) :
  0 <= i < 4 ->
  let t := translate c in
  let high := Z.shiftr t 8 + Z.shiftl i 6 in
  shift_bytes t i = (high, Z.land t 0xFF) /\
  Z.testbit t 14 = false /\ Z.testbit t 15 = false /\
  high = Z.lor (Z.shiftr t 8) (Z.shiftl i 6) /\
  Z.land (Z.shiftr t 8) (Z.shiftl i 6) = 0 /\
  digit_select (shift_bytes t i) = i /\
  segments (shift_bytes t i) = t.
Proof.
  intros Hi t high. exact (pack_no_carry t i (translate_range c) Hi).
Qed.

Lemma shift_bytes_digit_address_witness :
  0 <= 2 < 4 /\ shift_bytes (translate "K") 2 = (0x92, 0xB0).
Proof.
  split; [lia|].
  destruct (shift_bytes_digit_address "K"%byte 2 ltac:(lia)) as (H & _).
  exact H.
Defined.

(** ** Scan-out *)

Lemma scan_index_some (s : State) (i : Z) :
  0 <= j s -> 1 <= mesgLen s -> 0 <= i < 4 ->
  scan_index s i = Some ((j s + 3 - i) mod mesgLen s).
Proof. intros Hj HL Hi. unfold scan_index. apply c_mod_pos; lia. Qed.

Lemma scan_digit_some (s : State) (i : Z) :
  0 <= j s -> 1 <= mesgLen s -> 0 <= i < 4 ->
  scan_digit s i =
    Some (shift_bytes
            (translate (WString.charAt (message s) ((j s + 3 - i) mod mesgLen s))) i).
Proof.
  intros Hj HL Hi. unfold scan_digit, scan_glyph.
  rewrite scan_index_some by assumption. reflexivity.
Qed.

Lemma refresh_some (s : State) :
  0 <= j s -> 1 <= mesgLen s ->
  refresh s =
    Some (map (fun i => shift_bytes
                 (translate (WString.charAt (message s) ((j s + 3 - i) mod mesgLen s))) i)
              (seqZ 0 4)).
Proof.
  intros Hj HL. unfold refresh.
  change (seqZ 0 4) with [0; 1; 2; 3].
  cbn [mapM]. rewrite !scan_digit_some by lia. reflexivity.
Qed.

Lemma refresh_none (s : State) : mesgLen s = 0 -> refresh s = None.
Proof.
  intros H. unfold refresh. change (seqZ 0 4) with [0; 1; 2; 3].
  assert (E : scan_digit s 0 = None).
  { unfold scan_digit, scan_glyph, scan_index. rewrite H. reflexivity. }
  cbn [mapM]. rewrite E. reflexivity.
Qed.

Lemma charAt_lookup (m : list byte) (idx : Z) :
  0 <= idx < WString.length m ->
  m !! Z.to_nat idx = Some (WString.charAt m idx).
Proof.
  intros H. unfold WString.charAt, WString.length in *.
  destruct (Z.leb_spec 0 idx); [|lia].
  destruct (Z.ltb_spec idx (Z.of_nat (List.length m))); [|lia].
  cbn [andb].
  destruct (nth_lookup_or_length m (Z.to_nat idx) x00) as [E | E]; [exact E | lia].
Qed.

Lemma charAt_lookup_nat (m : list byte) (k : nat) :
  Z.of_nat k < WString.length m ->
  m !! k = Some (WString.charAt m (Z.of_nat k)).
Proof.
  intros H. rewrite <- (Nat2Z.id k) at 1. apply charAt_lookup. lia.
Qed.

(** C1: in a refresh cycle with window offset [j] and message length
    [L >= 1], scan position [i] (0..3) is sent the glyph of the message
    character at index [(j + 3 - i) mod L], with digit address [i]; for
    the message ABCD at offset 0 the four positions show D, C, B, A. *)
Theorem scan_digit_shows_window (s : State) (i : Z) :
  0 <= j s -> 1 <= mesgLen s -> 0 <= i < 4 ->
  let idx := (j s + 3 - i) mod mesgLen s in
  let glyph := translate (WString.charAt (message s) idx) in
  scan_index s i = Some idx /\
  scan_glyph s i = Some glyph /\
  (mesgLen s = WString.length (message s) ->
     message s !! Z.to_nat idx = Some (WString.charAt (message s) idx)) /\
  (exists out, refresh s = Some out /\ List.length out = 4%nat /\
     out !! Z.to_nat i = Some (shift_bytes glyph i)) /\
  segments (shift_bytes glyph i) = glyph /\
  digit_select (shift_bytes glyph i) = i /\
  map (scan_glyph abcd) [0; 1; 2; 3]
    = map (fun c => Some (translate c)) (list_byte_of_string "DCBA").
Proof.
  intros Hj HL Hi idx glyph.
  assert (Hidx : 0 <= idx < mesgLen s) by (apply Z.mod_pos_bound; lia).
  split; [apply scan_index_some; assumption|].
  split; [unfold scan_glyph; rewrite scan_index_some by assumption; reflexivity|].
  split; [intros E; apply charAt_lookup; lia|].
  split.
  { eexists. split; [apply refresh_some; assumption|].
    split; [reflexivity|].
    change (seqZ 0 4) with [0; 1; 2; 3].
    assert (Hc : i = 0 \/ i = 1 \/ i = 2 \/ i = 3) by lia.
    destruct Hc as [-> | [-> | [-> | ->]]]; reflexivity. }
  destruct (pack_no_carry glyph i (translate_range _) Hi) as (_ & _ & _ & _ & _ & Hd & Hs).
  split; [exact Hs|]. split; [exact Hd|]. reflexivity.
Qed.

Lemma scan_digit_shows_window_witness :
  scan_glyph abcd 0 = Some (translate "D") /\
  scan_glyph abcd 1 = Some (translate "C") /\
  scan_glyph abcd 2 = Some (translate "B") /\
  scan_glyph abcd 3 = Some (translate "A").
Proof.
  split; [|split; [|split]].
  - exact (proj1 (proj2 (scan_digit_shows_window abcd 0
             ltac:(simpl; lia) ltac:(simpl; lia) ltac:(lia)))).
  - exact (proj1 (proj2 (scan_digit_shows_window abcd 1
             ltac:(simpl; lia) ltac:(simpl; lia) ltac:(lia)))).
  - exact (proj1 (proj2 (scan_digit_shows_window abcd 2
             ltac:(simpl; lia) ltac:(simpl; lia) ltac:(lia)))).
  - exact (proj1 (proj2 (scan_digit_shows_window abcd 3
             ltac:(simpl; lia) ltac:(simpl; lia) ltac:(lia)))).
Defined.

(** ** Frame counter and window offset *)

Lemma scan_ok_byte (s : State) : scan_ok s -> mesgLen s < 256.
Proof.
  intros (_ & E & _). rewrite E.
  pose proof (to_byte_range (WString.length (message s))). lia.
Qed.

Lemma next_frame_tick (s : State) : scan_ok s -> next_frame s = Some (tick s).
Proof.
  intros Hok. pose proof (scan_ok_byte s Hok) as HL.
  destruct Hok as (H1 & _ & Hj & Hl).
  unfold next_frame, tick.
  rewrite (to_byte_small (loops s + 1)) by lia.
  destruct (Z.eqb_spec (loops s) 9) as [E9 | N9].
  - rewrite E9. cbn [Z.add Z.eqb Pos.eqb Pos.add Pos.succ].
    rewrite (to_byte_small (j s + 1)) by lia.
    rewrite c_mod_pos by lia. cbn [mbind option_bind].
    rewrite to_byte_small; [reflexivity|].
    pose proof (Z.mod_pos_bound (j s + 1) (mesgLen s)). lia.
  - destruct (Z.eqb_spec (loops s + 1) 10); [lia | reflexivity].
Qed.

Lemma tick_ok (s : State) : scan_ok s -> scan_ok (tick s).
Proof.
  intros (H1 & E & Hj & Hl). unfold tick, scan_ok.
  destruct (Z.eqb_spec (loops s) 9); cbn [message mesgLen j loops].
  - pose proof (Z.mod_pos_bound (j s + 1) (mesgLen s)). repeat split; try lia; assumption.
  - repeat split; try lia; assumption.
Qed.

Lemma loop_inv (rx : list byte) (s s' : State) (out : list (Z * Z)) :
  loop rx s = Some (s', out) ->
  exists s1, refresh s = Some out /\ next_frame s = Some s1 /\ s' = serial_input rx s1.
Proof.
  unfold loop. intros H.
  destruct (refresh s) as [o|]; [|discriminate H].
  destruct (next_frame s) as [s1|]; [|discriminate H].
  cbn in H. injection H as <- <-. exists s1. repeat split.
Qed.

Lemma loop_some (rx : list byte) (s : State) :
  scan_ok s -> exists out, loop rx s = Some (serial_input rx (tick s), out).
Proof.
  intros Hok. unfold loop.
  rewrite refresh_some by (destruct Hok as (? & _ & ? & _); lia).
  rewrite next_frame_tick by assumption.
  eexists. reflexivity.
Qed.

Lemma loop_quiet (s : State) : scan_ok s -> exists out, loop [] s = Some (tick s, out).
Proof. intros Hok. exact (loop_some [] s Hok). Qed.

Lemma loop_undefined (rx : list byte) (s : State) : mesgLen s = 0 -> loop rx s = None.
Proof. intros H. unfold loop. rewrite refresh_none by assumption. reflexivity. Qed.

Lemma cycles_closed_form (n : nat) :
  forall s, scan_ok s ->
  exists s', cycles n s = Some s' /\
    message s' = message s /\ mesgLen s' = mesgLen s /\ eeprom s' = eeprom s /\
    loops s' = (loops s + Z.of_nat n) mod 10 /\
    j s' = (j s + (loops s + Z.of_nat n) / 10) mod mesgLen s.
Proof.
  induction n as [|n IH]; intros s Hok.
  - exists s. destruct Hok as (H1 & _ & Hj & Hl).
    repeat split.
    + rewrite Z.add_0_r, Z.mod_small; lia.
    + rewrite Z.add_0_r, (Z.div_small (loops s)), Z.add_0_r, Z.mod_small; lia.
  - destruct (loop_quiet s Hok) as [out Hq].
    destruct (IH (tick s) (tick_ok s Hok)) as (s' & Hc & Hm & HL & He & Hlp & Hjp).
    exists s'. cbn [cycles]. rewrite Hq. cbn [mbind option_bind fst].
    split; [exact Hc|].
    destruct Hok as (H1 & _ & Hj & Hl).
    unfold tick in Hm, HL, He, Hlp, Hjp.
    destruct (Z.eqb_spec (loops s) 9) as [E9 | N9];
      cbn [message mesgLen j loops eeprom] in Hm, HL, He, Hlp, Hjp.
    + rewrite Z.add_0_l in Hlp, Hjp. repeat split; try assumption.
      * rewrite Hlp, E9.
        replace (9 + Z.of_nat (S n)) with (Z.of_nat n + 1 * 10) by lia.
        rewrite Z.mod_add by lia. reflexivity.
      * rewrite Hjp, E9.
        replace (9 + Z.of_nat (S n)) with (Z.of_nat n + 1 * 10) by lia.
        rewrite Z.div_add by lia. rewrite Z.add_mod_idemp_l by lia.
        f_equal. lia.
    + repeat split; try assumption.
      * rewrite Hlp. f_equal. lia.
      * rewrite Hjp. do 3 f_equal. lia.
Qed.

(** C4: each full refresh cycle adds one to the frame counter; on
    reaching ten the counter restarts at zero and the window offset
    moves on by exactly one, modulo the message length, and otherwise
    the offset is unchanged. After [n] cycles the counter is
    [(loops + n) mod 10] and the offset has moved on [(loops + n) / 10]
    times: once per ten cycles. *)
Theorem frame_counter_cadence (s : State) :
  scan_ok s ->
  (exists s', next_frame s = Some s' /\
     message s' = message s /\ mesgLen s' = mesgLen s /\ eeprom s' = eeprom s /\
     (loops s = 9 -> loops s' = 0 /\ j s' = (j s + 1) mod mesgLen s) /\
     (loops s <> 9 -> loops s' = loops s + 1 /\ j s' = j s)) /\
  (forall n, exists s', cycles n s = Some s' /\
     message s' = message s /\ mesgLen s' = mesgLen s /\
     loops s' = (loops s + Z.of_nat n) mod 10 /\
     j s' = (j s + (loops s + Z.of_nat n) / 10) mod mesgLen s) /\
  (loops s = 0 ->
     (forall n, (n < 10)%nat -> exists s', cycles n s = Some s' /\ j s' = j s) /\
     (exists s', cycles 10 s = Some s' /\
        loops s' = 0 /\ j s' = (j s + 1) mod mesgLen s)).
Proof.
  intros Hok. split; [|split].
  - exists (tick s). split; [apply next_frame_tick; assumption|].
    unfold tick. destruct (Z.eqb_spec (loops s) 9);
      cbn [message mesgLen j loops eeprom]; repeat split; intros; congruence || lia.
  - intros n. destruct (cycles_closed_form n s Hok) as (s' & ? & ? & ? & ? & ? & ?).
    exists s'. repeat split; assumption.
  - intros L0. pose proof Hok as (H1 & _ & Hj & _). split.
    + intros n Hn.
      destruct (cycles_closed_form n s Hok) as (s' & Hc & _ & _ & _ & _ & Hjp).
      exists s'. split; [exact Hc|].
      rewrite Hjp, L0, Z.add_0_l, Z.div_small, Z.add_0_r, Z.mod_small; lia.
    + destruct (cycles_closed_form 10 s Hok) as (s' & Hc & _ & _ & _ & Hlp & Hjp).
      exists s'. split; [exact Hc|].
      rewrite Hlp, Hjp, L0. split; reflexivity.
Qed.

Lemma frame_counter_cadence_witness :
  scan_ok hello_mid_scroll /\
  exists s', cycles 10 hello_mid_scroll = Some s' /\ loops s' = 7 /\ j s' = 5.
Proof.
  assert (Hok : scan_ok hello_mid_scroll) by (vm_compute; intuition congruence).
  split; [exact Hok|].
  destruct (frame_counter_cadence hello_mid_scroll Hok) as (_ & Hn & _).
  destruct (Hn 10%nat) as (s' & Hc & _ & _ & Hl & Hj).
  exists s'. repeat split; assumption.
Defined.

(** ** Serial input *)

Lemma accumulate_app (rx message : list byte) :
  accumulate rx message = message ++ rx.
Proof.
  revert message. induction rx as [|c rx IH]; intros message; cbn [accumulate].
  - rewrite app_nil_r. reflexivity.
  - rewrite IH. unfold WString.concat. rewrite <- app_assoc. reflexivity.
Qed.

Lemma accumulate_nil (rx : list byte) : accumulate rx [] = rx.
Proof. apply accumulate_app. Qed.

Lemma serial_input_nil (s : State) : serial_input [] s = s.
Proof. reflexivity. Qed.

Lemma serial_input_cons (c : byte) (rx : list byte) (s : State) :
  serial_input (c :: rx) s =
    let mesgLen := to_byte (WString.length (c :: rx)) in
    {| message := c :: rx; mesgLen := mesgLen; j := 0; loops := 0;
       eeprom := EEPROM.write_all (eeprom s) (message_writes (c :: rx) mesgLen) |}.
Proof.
  unfold serial_input. rewrite accumulate_nil.
  unfold Serial_available, WString.length.
  destruct (Z.ltb_spec 0 (Z.of_nat (List.length (c :: rx)))) as [_ | H];
    [reflexivity | cbn [List.length] in H; lia].
Qed.

(** C7: whenever serial input replaces the message, the window offset
    [j] and the frame counter [loops] are zero when the pass of [loop]
    ends, so the next refresh cycle starts from offset 0. *)
Theorem replacement_resets_scan (rx : list byte) (s : State) :
  rx <> [] ->
  (message (serial_input rx s) = rx /\
   j (serial_input rx s) = 0 /\ loops (serial_input rx s) = 0) /\
  (forall s' out, loop rx s = Some (s', out) ->
     message s' = rx /\ j s' = 0 /\ loops s' = 0 /\
     forall i, scan_index s' i = c_mod (0 + 3 - i) (mesgLen s')).
Proof.
  intros Hrx. destruct rx as [|c rx]; [congruence|].
  split.
  - rewrite serial_input_cons. repeat split.
  - intros s' out H. destruct (loop_inv _ _ _ _ H) as (s1 & _ & _ & ->).
    rewrite serial_input_cons. repeat split.
Qed.

Lemma replacement_resets_scan_witness :
  exists s' out, loop (list_byte_of_string "HI") hello_mid_scroll = Some (s', out) /\
    message s' = list_byte_of_string "HI" /\ j s' = 0 /\ loops s' = 0.
Proof.
  destruct (loop (list_byte_of_string "HI") hello_mid_scroll) as [[s' out]|] eqn:E;
    [|vm_compute in E; discriminate E].
  exists s', out. split; [reflexivity|].
  destruct (replacement_resets_scan (list_byte_of_string "HI") hello_mid_scroll
              ltac:(discriminate)) as (_ & H).
  destruct (H s' out E) as (Hm & Hj & Hl & _).
  repeat split; assumption.
Defined.






(** ** The EEPROM: reads after writes *)

Lemma read_write_eq (ee : gmap Z byte) (a : Z) (v : byte) :
  EEPROM.read (EEPROM.write ee a v) a = v.
Proof. unfold EEPROM.read, EEPROM.write. rewrite lookup_insert_eq. reflexivity. Qed.

Lemma read_write_ne (ee : gmap Z byte) (a b : Z) (v : byte) :
  a <> b -> EEPROM.read (EEPROM.write ee a v) b = EEPROM.read ee b.
Proof.
  intros H. unfold EEPROM.read, EEPROM.write.
  rewrite lookup_insert_ne by assumption. reflexivity.
Qed.

Lemma write_all_app (ee : gmap Z byte) (ws1 ws2 : list (Z * byte)) :
  EEPROM.write_all ee (ws1 ++ ws2) = EEPROM.write_all (EEPROM.write_all ee ws1) ws2.
Proof. unfold EEPROM.write_all. apply foldl_app. Qed.

Lemma read_write_chars (g : Z -> byte) (n : nat) (ee : gmap Z byte) (a : Z) :
  EEPROM.read
    (EEPROM.write_all ee (map (fun i => (i + 1, g i)) (seqZ 0 (Z.of_nat n)))) a
  = if (1 <=? a) && (a <=? Z.of_nat n) then g (a - 1) else EEPROM.read ee a.
Proof.
  induction n as [|n IH].
  - change (Z.of_nat 0) with 0. cbn [seqZ map EEPROM.write_all foldl].
    destruct (Z.leb_spec 1 a), (Z.leb_spec a 0); cbn [andb];
      solve [reflexivity | exfalso; lia].
  - rewrite seqZ_S, map_app, write_all_app. cbn [map EEPROM.write_all foldl fst snd].
    rewrite Z.add_0_l.
    destruct (Z.eq_dec a (Z.of_nat n + 1)) as [-> | Hne].
    + rewrite read_write_eq.
      destruct (Z.leb_spec 1 (Z.of_nat n + 1)); [|exfalso; lia].
      destruct (Z.leb_spec (Z.of_nat n + 1) (Z.of_nat (S n))); [|exfalso; lia].
      cbn [andb]. f_equal. lia.
    + rewrite read_write_ne by congruence. rewrite IH.
      destruct (Z.leb_spec 1 a), (Z.leb_spec a (Z.of_nat n)),
        (Z.leb_spec a (Z.of_nat (S n))); cbn [andb];
        solve [reflexivity | exfalso; lia].
Qed.

Lemma read_write_chars_Z (g : Z -> byte) (L : Z) (ee : gmap Z byte) (a : Z) :
  0 <= L ->
  EEPROM.read (EEPROM.write_all ee (map (fun i => (i + 1, g i)) (seqZ 0 L))) a
  = if (1 <=? a) && (a <=? L) then g (a - 1) else EEPROM.read ee a.
Proof.
  intros HL. rewrite <- (Z2Nat.id L HL). apply read_write_chars.
Qed.

(** The EEPROM after a replacement by a message of at most 255
    characters: the length, then the characters, then the terminator. *)
Lemma read_after_store (M : list byte) (ee : gmap Z byte) :
  let L := WString.length M in
  let ee' := EEPROM.write_all ee (message_writes M L) in
  L < 256 ->
  EEPROM.read ee' 0 = cell_of_Z L /\
  (forall a, 1 <= a <= L -> EEPROM.read ee' a = WString.charAt M (a - 1)) /\
  EEPROM.read ee' (L + 1) = x00.
Proof.
  intros L ee' HL. subst ee'. unfold message_writes.
  assert (HL0 : 0 <= L) by (unfold L, WString.length; lia).
  change ((0, cell_of_Z L) :: ?l) with ([(0, cell_of_Z L)] ++ l).
  rewrite !write_all_app. cbn [EEPROM.write_all foldl fst snd].
  split; [|split].
  - rewrite read_write_ne by lia. rewrite read_write_chars_Z by assumption.
    cbn [Z.leb Z.compare andb]. apply read_write_eq.
  - intros a Ha. rewrite read_write_ne by lia.
    rewrite read_write_chars_Z by assumption.
    destruct (Z.leb_spec 1 a); [|exfalso; lia].
    destruct (Z.leb_spec a L); [|exfalso; lia]. reflexivity.
  - apply read_write_eq.
Qed.

Lemma stored_cons (ee : gmap Z byte) (a n : Z) :
  0 < n -> stored ee a n = EEPROM.read ee a :: stored ee (a + 1) (n - 1).
Proof.
  intros H. unfold stored. rewrite seqZ_cons by lia. reflexivity.
Qed.

Lemma stored_eq (ee : gmap Z byte) (M : list byte) :
  (forall a, 1 <= a <= WString.length M ->
     EEPROM.read ee a = WString.charAt M (a - 1)) ->
  stored ee 1 (WString.length M) = M.
Proof.
  intros H. unfold stored. apply list_eq. intros k.
  change (map ?f ?l) with (f <$> l). rewrite list_lookup_fmap.
  destruct (decide (Z.of_nat k < WString.length M)) as [Hk | Hk].
  - rewrite lookup_seqZ_lt by assumption. cbn [fmap option_fmap option_map].
    rewrite H by lia.
    replace (1 + Z.of_nat k - 1) with (Z.of_nat k) by lia.
    symmetry. apply charAt_lookup_nat. assumption.
  - rewrite lookup_seqZ_ge by lia. cbn. symmetry.
    apply lookup_ge_None. unfold WString.length in Hk. lia.
Qed.

(** The writes of a replacement, spelled out: the length at address 0,
    the characters at addresses 1..L, the terminator at L+1. *)
Lemma message_writes_order (M : list byte) :
  message_writes M (WString.length M)
  = (0, cell_of_Z (WString.length M))
    :: zip (seqZ 1 (WString.length M)) M
    ++ [(WString.length M + 1, x00)].
Proof.
  unfold message_writes. do 2 f_equal.
  apply list_eq. intros k.
  change (map ?f ?l) with (f <$> l). rewrite list_lookup_fmap, lookup_zip_with.
  destruct (decide (Z.of_nat k < WString.length M)) as [Hk | Hk].
  - rewrite !lookup_seqZ_lt by assumption. cbn.
    rewrite (charAt_lookup_nat M k) by assumption. cbn.
    do 2 f_equal. lia.
  - rewrite !lookup_seqZ_ge by lia. reflexivity.
Qed.

(** ** [setup]: loading the stored message *)

Lemma read_message_step (fuel : nat) (ee : gmap Z byte) (temp i : Z)
    (msg : list byte) :
  0 <= i < 255 ->
  read_message (S fuel) ee temp i msg =
    if (i + 1 <=? temp) && negb (bool_decide (EEPROM.read ee i = x00))
    then read_message fuel ee temp (i + 1) (msg ++ [EEPROM.read ee i])
    else Some (msg ++ [EEPROM.read ee i]).
Proof.
  intros Hi. cbn [read_message]. unfold WString.concat.
  rewrite (to_byte_small (i + 1)) by lia.
  rewrite char_to_int_not_255. cbn [negb]. rewrite andb_true_r.
  assert (E : (char_to_int (EEPROM.read ee i) =? 0)
              = bool_decide (EEPROM.read ee i = x00)).
  { destruct (Z.eqb_spec (char_to_int (EEPROM.read ee i)) 0) as [H | H].
    - apply char_to_int_zero in H. rewrite bool_decide_eq_true_2; auto.
    - rewrite bool_decide_eq_false_2; [reflexivity|].
      intros H'. apply H. apply char_to_int_zero. exact H'. }
  rewrite E. reflexivity.
Qed.

(** The loop reads [n + 1] cells when the first [n] of them are not null
    and the next one is null or the last one counted by [temp]. *)
Lemma read_message_spec (n : nat) :
  forall fuel ee temp i msg,
  1 <= i -> i + Z.of_nat n <= temp -> temp <= 128 -> (n < fuel)%nat ->
  (forall a, i <= a < i + Z.of_nat n -> EEPROM.read ee a <> x00) ->
  (i + Z.of_nat n = temp \/ EEPROM.read ee (i + Z.of_nat n) = x00) ->
  read_message fuel ee temp i msg = Some (msg ++ stored ee i (Z.of_nat n + 1)).
Proof.
  induction n as [|n IH]; intros fuel ee temp i msg Hi Hn Ht Hf Hnz Hend;
    (destruct fuel as [|fuel]; [exfalso; lia|]); rewrite read_message_step by lia.
  - rewrite Z.add_0_r in Hend. change (Z.of_nat 0 + 1) with 1.
    rewrite (stored_cons ee i 1) by lia.
    change (stored ee (i + 1) (1 - 1)) with (@nil byte).
    destruct Hend as [-> | E].
    + destruct (Z.leb_spec (temp + 1) temp); [exfalso; lia|]. reflexivity.
    + rewrite (bool_decide_eq_true_2 _ E). cbn [negb]. rewrite andb_false_r.
      reflexivity.
  - destruct (Z.leb_spec (i + 1) temp); [|exfalso; lia].
    rewrite bool_decide_eq_false_2 by (apply Hnz; lia). cbn [negb andb].
    rewrite (IH fuel ee temp (i + 1) (msg ++ [EEPROM.read ee i])); try lia.
    + rewrite <- app_assoc. cbn [app].
      rewrite (stored_cons ee i (Z.of_nat (S n) + 1)) by lia.
      replace (Z.of_nat (S n) + 1 - 1) with (Z.of_nat n + 1) by lia.
      reflexivity.
    + intros a Ha. apply Hnz. lia.
    + replace (i + 1 + Z.of_nat n) with (i + Z.of_nat (S n)) by lia. exact Hend.
Qed.

(** The loop always ends, having read between one cell and all the cells
    counted by [temp]. *)
Lemma read_message_total (fuel : nat) :
  forall ee temp i msg,
  1 <= i <= temp -> temp <= 128 -> (Z.to_nat (temp - i) < fuel)%nat ->
  exists m, read_message fuel ee temp i msg = Some m /\
    WString.length msg + 1 <= WString.length m <= WString.length msg + (temp - i + 1).
Proof.
  induction fuel as [|fuel IH]; intros ee temp i msg Hi Ht Hf; [exfalso; lia|].
  rewrite read_message_step by lia.
  destruct ((i + 1 <=? temp) && negb (bool_decide (EEPROM.read ee i = x00))) eqn:E.
  - apply andb_true_iff in E. destruct E as [E _]. apply Z.leb_le in E.
    destruct (IH ee temp (i + 1) (msg ++ [EEPROM.read ee i])) as (m & Hm & Hlen);
      try lia.
    exists m. split; [exact Hm|].
    unfold WString.length in *. rewrite length_app in Hlen. cbn [List.length] in Hlen.
    lia.
  - eexists. split; [reflexivity|].
    unfold WString.length. rewrite length_app. cbn [List.length]. lia.
Qed.

Lemma setup_default (ee : gmap Z byte) :
  ~ (1 <= Z_of_cell (EEPROM.read ee 0) <= 128) ->
  setup ee = Some {| message := default_message; mesgLen := 44;
                     j := 0; loops := 0; eeprom := ee |}.
Proof.
  intros H. unfold setup.
  destruct (Z.ltb_spec 0 (Z_of_cell (EEPROM.read ee 0)));
    destruct (Z.leb_spec (Z_of_cell (EEPROM.read ee 0)) 128);
    cbn [andb]; solve [reflexivity | exfalso; lia].
Qed.

Lemma setup_stored (ee : gmap Z byte) :
  1 <= Z_of_cell (EEPROM.read ee 0) <= 128 ->
  exists m, read_message 256 ee (Z_of_cell (EEPROM.read ee 0)) 1 [] = Some m /\
    1 <= WString.length m <= Z_of_cell (EEPROM.read ee 0) /\
    setup ee = Some {| message := m; mesgLen := WString.length m;
                       j := 0; loops := 0; eeprom := ee |}.
Proof.
  intros H. set (temp := Z_of_cell (EEPROM.read ee 0)) in *.
  destruct (read_message_total 256 ee temp 1 []) as (m & Hm & Hlen); try lia.
  change (WString.length []) with 0 in Hlen.
  exists m. split; [exact Hm|]. split; [lia|].
  unfold setup. fold temp.
  destruct (Z.ltb_spec 0 temp); [|exfalso; lia].
  destruct (Z.leb_spec temp 128); [|exfalso; lia]. cbn [andb].
  rewrite Hm. cbn [mbind option_bind]. rewrite to_byte_small by lia. reflexivity.
Qed.

(** [setup] always completes, and leaves a state [loop] can run from,
    with a message of 1 to 128 characters. *)
Lemma setup_scan_ok (ee : gmap Z byte) :
  exists s, setup ee = Some s /\ scan_ok s /\ eeprom s = ee /\
    1 <= WString.length (message s) <= 128 /\
    mesgLen s = WString.length (message s).
Proof.
  destruct (decide (1 <= Z_of_cell (EEPROM.read ee 0) <= 128)) as [H | H].
  - destruct (setup_stored ee H) as (m & _ & Hlen & Hs).
    eexists. split; [exact Hs|]. cbn [message mesgLen j loops eeprom].
    unfold scan_ok. cbn [message mesgLen j loops eeprom].
    rewrite to_byte_small by lia. repeat split; lia.
  - eexists. split; [exact (setup_default ee H)|].
    unfold scan_ok. cbn [message mesgLen j loops eeprom].
    change (WString.length default_message) with 44.
    rewrite to_byte_small by lia. repeat split; lia.
Qed.

(** ** Persistence *)

Lemma store_then_setup (M : list byte) (ee : gmap Z byte) :
  1 <= WString.length M <= 128 ->
  (forall k, Z.of_nat k < WString.length M - 1 -> M !! k <> Some x00) ->
  let ee' := EEPROM.write_all ee (message_writes M (WString.length M)) in
  EEPROM.read ee' 0 = cell_of_Z (WString.length M) /\
  stored ee' 1 (WString.length M) = M /\
  EEPROM.read ee' (WString.length M + 1) = x00 /\
  setup ee' = Some {| message := M; mesgLen := WString.length M;
                      j := 0; loops := 0; eeprom := ee' |}.
Proof.
  intros HL Hnz ee'.
  destruct (read_after_store M ee ltac:(lia)) as (H0 & Hc & Ht).
  fold ee' in H0, Hc, Ht.
  pose proof (stored_eq ee' M Hc) as Hst.
  split; [exact H0|]. split; [exact Hst|]. split; [exact Ht|].
  assert (Htemp : Z_of_cell (EEPROM.read ee' 0) = WString.length M).
  { rewrite H0, Z_of_cell_of_Z. apply Z.mod_small. lia. }
  destruct (setup_stored ee') as (m & Hm & _ & Hs); [lia|].
  rewrite Htemp in Hm.
  rewrite (read_message_spec (Z.to_nat (WString.length M - 1))) in Hm; try lia.
  - replace (Z.of_nat (Z.to_nat (WString.length M - 1)) + 1)
      with (WString.length M) in Hm by lia.
    rewrite Hst in Hm. cbn [app] in Hm. injection Hm as <-. exact Hs.
  - intros a Ha. rewrite Hc by lia. intros E.
    apply (Hnz (Z.to_nat (a - 1))); [lia|].
    rewrite <- E. apply charAt_lookup. lia.
Qed.

(** C5, as amended: a message of 1 to 128 characters with no null
    character before its last one, once received, is written as length,
    characters, terminator (in that order) and is the active message
    after the next [setup]; a stored length outside 1..128 (0 and 255
    among them) makes [setup] install the default message. *)
Theorem persistence_round_trip :
  (forall (M : list byte) (s : State),
     1 <= WString.length M <= 128 ->
     (forall k, Z.of_nat k < WString.length M - 1 -> M !! k <> Some x00) ->
     let L := WString.length M in
     let s' := serial_input M s in
     message s' = M /\
     eeprom s' = EEPROM.write_all (eeprom s) (message_writes M L) /\
     message_writes M L
       = (0, cell_of_Z L) :: zip (seqZ 1 L) M ++ [(L + 1, x00)] /\
     setup (eeprom s')
       = Some {| message := M; mesgLen := L; j := 0; loops := 0;
                 eeprom := eeprom s' |}) /\
  (forall ee : gmap Z byte,
     ~ (1 <= Z_of_cell (EEPROM.read ee 0) <= 128) ->
     exists s, setup ee = Some s /\ message s = default_message).
Proof.
  split.
  - intros M s HL Hnz L s'.
    assert (Hs' : s' = {| message := M; mesgLen := L; j := 0; loops := 0;
                          eeprom := EEPROM.write_all (eeprom s) (message_writes M L) |}).
    { subst s'.
      destruct M as [|c M];
        [exfalso; unfold WString.length in HL; cbn [List.length] in HL; lia|].
      rewrite serial_input_cons. cbn zeta. fold L.
      rewrite (to_byte_small L) by (unfold L; lia). reflexivity. }
    rewrite Hs'. cbn [message eeprom].
    split; [reflexivity|]. split; [reflexivity|].
    split; [apply message_writes_order|].
    exact (proj2 (proj2 (proj2 (store_then_setup M (eeprom s) HL Hnz)))).
  - intros ee H. eexists. split; [exact (setup_default ee H)|]. reflexivity.
Qed.

Lemma persistence_round_trip_witness :
  setup (eeprom (serial_input (list_byte_of_string "HI") abcd))
    = Some {| message := list_byte_of_string "HI"; mesgLen := 2; j := 0; loops := 0;
              eeprom := eeprom (serial_input (list_byte_of_string "HI") abcd) |} /\
  (exists s, setup (EEPROM.write ∅ 0 xff) = Some s /\ message s = default_message).
Proof.
  destruct persistence_round_trip as [Hrt Hdef].
  split.
  - refine (proj2 (proj2 (proj2 (Hrt (list_byte_of_string "HI") abcd _ _)))).
    + vm_compute. split; discriminate.
    + intros [|[|k]] Hk; vm_compute in Hk |- *; discriminate.
  - apply Hdef. vm_compute. intros [_ H]. apply H. reflexivity.
Defined.

(** C5 as first stated fails for a message with a null character
    inside: the message read back ends at the null. *)
Lemma round_trip_fails_on_interior_null :
  1 <= WString.length ["A"%byte; x00; "B"%byte] <= 128 /\
  message <$> setup (eeprom (serial_input ["A"%byte; x00; "B"%byte] abcd))
    = Some ["A"%byte; x00] /\
  ["A"%byte; x00] <> ["A"%byte; x00; "B"%byte].
Proof.
  split; [vm_compute; split; discriminate|].
  split; [vm_compute; reflexivity | discriminate].
Qed.

(** C6, as amended: a stored length outside 1..128 makes [setup] install
    the default message; with a stored length in range, a null cell met
    at address [k] before the count is exhausted ends the loading there,
    and the active message is the [k] cells read so far, the null among
    them, and not the default message. *)
Theorem setup_fallback_or_truncation (ee : gmap Z byte) :
  let L := Z_of_cell (EEPROM.read ee 0) in
  (~ (1 <= L <= 128) ->
     setup ee = Some {| message := default_message; mesgLen := 44;
                        j := 0; loops := 0; eeprom := ee |}) /\
  (forall k, 1 <= L <= 128 -> 1 <= k <= L ->
     EEPROM.read ee k = x00 ->
     (forall a, 1 <= a < k -> EEPROM.read ee a <> x00) ->
     setup ee = Some {| message := stored ee 1 k; mesgLen := k;
                        j := 0; loops := 0; eeprom := ee |} /\
     WString.length (stored ee 1 k) = k /\
     stored ee 1 k <> default_message).
Proof.
  intros L. split; [exact (setup_default ee)|].
  intros k HL Hk Hnull Hnz.
  assert (Hlen : WString.length (stored ee 1 k) = k).
  { unfold WString.length, stored. rewrite length_map, length_seqZ. lia. }
  split; [|split; [exact Hlen|]].
  - destruct (setup_stored ee HL) as (m & Hm & _ & Hs). fold L in Hm.
    rewrite (read_message_spec (Z.to_nat (k - 1))) in Hm; try lia.
    + replace (Z.of_nat (Z.to_nat (k - 1)) + 1) with k in Hm by lia.
      cbn [app] in Hm. injection Hm as <-. rewrite Hs, Hlen. reflexivity.
    + intros a Ha. apply Hnz. lia.
    + right. replace (1 + Z.of_nat (Z.to_nat (k - 1))) with k by lia. exact Hnull.
  - intros E.
    assert (Hin : x00 ∈ stored ee 1 k).
    { rewrite <- Hnull. unfold stored. change (map ?f ?l) with (f <$> l).
      apply list_elem_of_fmap_2. apply elem_of_seqZ. lia. }
    rewrite E in Hin.
    assert (Hnot : x00 ∉ default_message) by compute_done.
    exact (Hnot Hin).
Qed.

Lemma setup_fallback_or_truncation_witness :
  setup store_with_null
    = Some {| message := ["A"%byte; x00]; mesgLen := 2; j := 0; loops := 0;
              eeprom := store_with_null |} /\
  setup (∅ : gmap Z byte)
    = Some {| message := default_message; mesgLen := 44; j := 0; loops := 0;
              eeprom := ∅ |}.
Proof.
  split.
  - refine (proj1 (proj2 (setup_fallback_or_truncation store_with_null) 2 _ _ _ _)).
    + vm_compute. split; discriminate.
    + vm_compute. split; discriminate.
    + reflexivity.
    + intros a Ha. assert (a = 1) as -> by lia. vm_compute. discriminate.
  - apply (proj1 (setup_fallback_or_truncation ∅)).
    vm_compute. intros [_ H]. apply H. reflexivity.
Defined.

(** C6 as first stated fails: a null met before the stored length is
    exhausted leaves a truncated message, not the default one. *)
Lemma early_null_does_not_fall_back :
  Z_of_cell (EEPROM.read store_with_null 0) = 3 /\
  EEPROM.read store_with_null 2 = x00 /\
  message <$> setup store_with_null = Some ["A"%byte; x00] /\
  ["A"%byte; x00] <> default_message.
Proof. repeat split; try (vm_compute; reflexivity). discriminate. Qed.

(** An erased cell (0xFF) does not end the loading: the comparison of a
    signed [char] with [0xFF] never holds. *)
Lemma erased_cell_is_read_through :
  message <$> setup store_with_erased = Some ["A"%byte; xff; "B"%byte].
Proof. vm_compute. reflexivity. Qed.

(** ** Reachable states *)

Lemma reachable_within_reachable (n : Z) (s : State) :
  reachable_within n s -> reachable s.
Proof.
  induction 1 as [ee s H | rx s s' out _ IH _ H].
  - exact (reach_setup ee s H).
  - exact (reach_loop rx s s' out IH H).
Qed.

Lemma serial_input_ok (rx : list byte) (s : State) :
  scan_ok s -> Serial_available rx <= 255 -> scan_ok (serial_input rx s).
Proof.
  intros Hok Hrx. destruct rx as [|c rx]; [exact Hok|].
  rewrite serial_input_cons. unfold scan_ok. cbn [message mesgLen j loops].
  unfold Serial_available in Hrx. unfold WString.length.
  rewrite to_byte_small by (cbn [List.length] in *; lia).
  cbn [List.length] in *. repeat split; lia.
Qed.

Lemma loop_step_ok (rx : list byte) (s s' : State) (out : list (Z * Z)) :
  scan_ok s -> loop rx s = Some (s', out) -> s' = serial_input rx (tick s).
Proof.
  intros Hok H. destruct (loop_some rx s Hok) as [out' H'].
  rewrite H in H'. injection H' as -> _. reflexivity.
Qed.

(** With no burst of more than 255 cells, [loop] always finds the
    globals as it needs them. *)
Lemma within_255_scan_ok (s : State) : reachable_within 255 s -> scan_ok s.
Proof.
  induction 1 as [ee s H | rx s s' out _ IH Hrx H].
  - destruct (setup_scan_ok ee) as (s0 & H0 & Hok & _).
    rewrite H in H0. injection H0 as <-. exact Hok.
  - rewrite (loop_step_ok rx s s' out IH H).
    apply serial_input_ok; [apply tick_ok; exact IH | exact Hrx].
Qed.

(** With no burst of more than 128 cells, the message has 1 to 128
    characters and [mesgLen] is its length. *)
Lemma within_128_length (s : State) :
  reachable_within 128 s ->
  scan_ok s /\ 1 <= WString.length (message s) <= 128 /\
  mesgLen s = WString.length (message s).
Proof.
  induction 1 as [ee s H | rx s s' out _ IH Hrx H].
  - destruct (setup_scan_ok ee) as (s0 & H0 & Hok & _ & Hlen & HL).
    rewrite H in H0. injection H0 as <-.
    split; [exact Hok|]. split; [lia | exact HL].
  - destruct IH as (Hok & Hlen & HL).
    rewrite (loop_step_ok rx s s' out Hok H).
    split; [apply serial_input_ok; [apply tick_ok; exact Hok | lia]|].
    destruct rx as [|c rx].
    + rewrite serial_input_nil. unfold tick.
      destruct (loops s =? 9); cbn [message mesgLen]; (split; [lia | exact HL]).
    + rewrite serial_input_cons. cbn [message mesgLen].
      unfold Serial_available in Hrx. unfold WString.length.
      rewrite to_byte_small by (cbn [List.length] in *; lia).
      cbn [List.length] in *. split; [lia | reflexivity].
Qed.

(** In a state as [loop] needs it, every index of the scan is inside the
    message. *)
Lemma scan_index_in_bounds (s : State) (i : Z) :
  scan_ok s -> 0 <= i < 4 ->
  exists idx, scan_index s i = Some idx /\ 0 <= idx < WString.length (message s).
Proof.
  intros (H1 & E & Hj & _) Hi.
  exists ((j s + 3 - i) mod mesgLen s).
  split; [apply scan_index_some; lia|].
  pose proof (Z.mod_pos_bound (j s + 3 - i) (mesgLen s) ltac:(lia)).
  assert (mesgLen s <= WString.length (message s)).
  { rewrite E. unfold to_byte. apply Z.mod_le; unfold WString.length; lia. }
  lia.
Qed.

(** A burst received by the freshly booted program with an erased
    EEPROM. *)
Lemma reachable_burst (c : byte) (rx : list byte) :
  let L := to_byte (WString.length (c :: rx)) in
  reachable {| message := c :: rx; mesgLen := L; j := 0; loops := 0;
               eeprom := EEPROM.write_all ∅ (message_writes (c :: rx) L) |}.
Proof.
  intros L.
  destruct (setup_scan_ok ∅) as (s0 & H0 & Hok & He & _).
  destruct (loop_some (c :: rx) s0 Hok) as [out Hl].
  rewrite serial_input_cons in Hl. cbn zeta in Hl.
  assert (Et : eeprom (tick s0) = ∅).
  { rewrite <- He. unfold tick. destruct (loops s0 =? 9); reflexivity. }
  rewrite Et in Hl.
  exact (reach_loop _ _ _ _ (reach_setup _ _ H0) Hl).
Qed.

(** C8, where the code departs from it: after a burst of 256 cells the
    message has 256 characters but [mesgLen], a [byte], is 0; the index
    computation of the next refresh takes a modulus by zero and the pass
    of [loop] has no defined result. *)
Theorem burst_of_256_zeroes_mesgLen :
  exists s, reachable s /\
    WString.length (message s) = 256 /\ mesgLen s = 0 /\
    (forall i, scan_index s i = None) /\
    (forall rx, loop rx s = None).
Proof.
  eexists. split; [exact (reachable_burst "A"%byte (replicate 255 "A"%byte))|].
  cbn [message mesgLen].
  assert (E : WString.length ("A"%byte :: replicate 255 "A"%byte) = 256)
    by (vm_compute; reflexivity).
  rewrite E. change (to_byte 256) with 0.
  split; [reflexivity|]. split; [reflexivity|]. split.
  - intros i. reflexivity.
  - intros rx. apply loop_undefined. reflexivity.
Qed.

(** C9, where the code departs from it: a burst of 129 cells becomes the
    active message, 129 is written as its length, and the next [setup]
    rejects that length and installs the default message. *)
Theorem burst_of_129_exceeds_limit :
  exists s, reachable s /\
    WString.length (message s) = 129 /\
    Z_of_cell (EEPROM.read (eeprom s) 0) = 129 /\
    exists s', setup (eeprom s) = Some s' /\ message s' = default_message /\
      message s' <> message s.
Proof.
  eexists. split; [exact (reachable_burst "A"%byte (replicate 128 "A"%byte))|].
  cbn [message mesgLen eeprom].
  set (M := "A"%byte :: replicate 128 "A"%byte).
  assert (E : WString.length M = 129) by (vm_compute; reflexivity).
  rewrite E. change (to_byte 129) with 129.
  assert (H0 : Z_of_cell (EEPROM.read (EEPROM.write_all ∅ (message_writes M 129)) 0) = 129).
  { rewrite <- E.
    rewrite (proj1 (read_after_store M ∅ ltac:(rewrite E; lia))).
    rewrite E. reflexivity. }
  split; [reflexivity|]. split; [exact H0|].
  eexists. split; [apply setup_default; rewrite H0; lia|].
  cbn [message]. split; [reflexivity|].
  intros Hd. apply (f_equal WString.length) in Hd. rewrite E in Hd.
  vm_compute in Hd. discriminate Hd.
Qed.

(** * Further properties of the sketch *)

(** ** [getDigit] *)

Lemma getDigit_loop_closed (m : nat) :
  forall fuel d k p,
  d = k + Z.of_nat m -> 0 <= k -> d <= 255 -> (m < fuel)%nat ->
  0 <= p < 65536 ->
  getDigit_loop fuel d k p = Some ((p * 10 ^ Z.of_nat m) mod 65536).
Proof.
  induction m as [|m IH]; intros fuel d k p Hd Hk Hd255 Hf Hp;
    (destruct fuel as [|fuel]; [exfalso; lia|]); cbn [getDigit_loop].
  - destruct (Z.ltb_spec k d); [exfalso; lia|].
    change (10 ^ Z.of_nat 0) with 1. rewrite Z.mul_1_r, Z.mod_small by lia.
    reflexivity.
  - destruct (Z.ltb_spec k d); [|exfalso; lia].
    rewrite (to_byte_small (k + 1)) by lia.
    rewrite (IH fuel d (k + 1) (to_uint (p * 10))); try lia.
    + f_equal. unfold to_uint. rewrite Z.mul_mod_idemp_l by lia.
      f_equal. rewrite Nat2Z.inj_succ, Z.pow_succ_r by lia. lia.
    + unfold to_uint. apply Z.mod_pos_bound. lia.
Qed.

(** The power of ten that [getDigit] divides by. *)
Lemma getDigit_powTen (d : Z) :
  1 <= d <= 255 ->
  getDigit_loop 256 d 1 1 = Some (10 ^ (d - 1) mod 65536).
Proof.
  intros Hd.
  rewrite (getDigit_loop_closed (Z.to_nat (d - 1)) 256 d 1 1); try lia.
  rewrite Z.mul_1_l. do 3 f_equal. lia.
Qed.

Lemma getDigit_with (d n p : Z) :
  getDigit_loop 256 d 1 1 = Some p -> 0 < p -> 0 <= n ->
  getDigit d n = Some ((n / p) mod 10).
Proof.
  intros Hp Hpos Hn. unfold getDigit. rewrite Hp. cbn [mbind option_bind].
  unfold c_div. destruct (Z.eqb_spec p 0); [exfalso; lia|].
  cbn [mbind option_bind].
  rewrite Z.quot_div_nonneg by lia.
  rewrite c_mod_pos by (try apply Z.div_pos; lia).
  cbn [mbind option_bind]. rewrite to_byte_small; [reflexivity|].
  pose proof (Z.mod_pos_bound (n / p) 10). lia.
Qed.

(** X1: for a digit position [d] from 1 (units) to 5 and a 16-bit [n],
    [getDigit d n] is defined and is the [d]-th decimal digit of [n],
    a value from 0 to 9. *)
Theorem getDigit_decimal (d n : Z) :
  1 <= d <= 5 -> 0 <= n < 65536 ->
  getDigit d n = Some ((n / 10 ^ (d - 1)) mod 10) /\
  0 <= (n / 10 ^ (d - 1)) mod 10 <= 9.
Proof.
  intros Hd Hn. split.
  - apply getDigit_with; [|apply Z.pow_pos_nonneg; lia | lia].
    rewrite getDigit_powTen by lia. f_equal. apply Z.mod_small.
    assert (Hc : d = 1 \/ d = 2 \/ d = 3 \/ d = 4 \/ d = 5) by lia.
    destruct Hc as [-> | [-> | [-> | [-> | ->]]]]; cbn; lia.
  - pose proof (Z.mod_pos_bound (n / 10 ^ (d - 1)) 10). lia.
Qed.

Lemma getDigit_decimal_witness :
  getDigit 3 40961 = Some 9.
Proof.
  exact (proj1 (getDigit_decimal 3 40961 ltac:(lia) ltac:(lia))).
Defined.

(** X2: the five digits that [getDigit] extracts from a 16-bit [n]
    recompose [n]. *)
Theorem getDigit_recompose (n : Z) :
  0 <= n < 65536 ->
  exists d1 d2 d3 d4 d5,
    getDigit 1 n = Some d1 /\ getDigit 2 n = Some d2 /\ getDigit 3 n = Some d3 /\
    getDigit 4 n = Some d4 /\ getDigit 5 n = Some d5 /\
    n = d1 + 10 * d2 + 100 * d3 + 1000 * d4 + 10000 * d5.
Proof.
  intros Hn.
  exists ((n / 10 ^ (1 - 1)) mod 10), ((n / 10 ^ (2 - 1)) mod 10),
    ((n / 10 ^ (3 - 1)) mod 10), ((n / 10 ^ (4 - 1)) mod 10),
    ((n / 10 ^ (5 - 1)) mod 10).
  repeat (split; [apply getDigit_with; [apply getDigit_powTen | |]; cbn; lia|]).
  cbn [Z.sub Z.opp Z.add Z.pos_sub Z.pow Z.pow_pos Pos.iter Z.mul Pos.mul
       Pos.pred_double Z.succ_double Z.pred_double Z.double Pos.add Pos.succ].
  rewrite Z.div_1_r.
  Z.div_mod_to_equations. lia.
Qed.

Lemma getDigit_recompose_witness :
  exists d1 d2 d3 d4 d5,
    getDigit 1 2019 = Some d1 /\ getDigit 2 2019 = Some d2 /\
    getDigit 3 2019 = Some d3 /\ getDigit 4 2019 = Some d4 /\
    getDigit 5 2019 = Some d5 /\
    2019 = d1 + 10 * d2 + 100 * d3 + 1000 * d4 + 10000 * d5.
Proof. exact (getDigit_recompose 2019 ltac:(lia)). Defined.

(** X3: outside the positions 1..5 [getDigit] does not give decimal
    digits. Position 0 is read as position 1. At position 6 the power of
    ten has wrapped to 34464 and the result is 1 for every [n] from
    34464 on. From position 17 on the wrapped power is zero and the
    division has no defined result. *)
Theorem getDigit_out_of_range :
  (forall n, getDigit 0 n = getDigit 1 n) /\
  (forall n, 0 <= n < 65536 ->
     getDigit 6 n = Some (if n <? 34464 then 0 else 1)) /\
  (forall d n, 17 <= d <= 255 -> getDigit d n = None).
Proof.
  split; [reflexivity|]. split.
  - intros n Hn.
    rewrite (getDigit_with 6 n 34464); [|reflexivity | lia | lia].
    f_equal. destruct (Z.ltb_spec n 34464).
    + rewrite Z.div_small by lia. reflexivity.
    + replace (n / 34464) with 1; [reflexivity|].
      apply (Z.div_unique n 34464 1 (n - 34464)); lia.
  - intros d n Hd. unfold getDigit.
    rewrite getDigit_powTen by lia.
    replace (10 ^ (d - 1) mod 65536) with 0; [reflexivity|].
    replace (d - 1) with (16 + (d - 17)) by lia.
    rewrite Z.pow_add_r by lia.
    rewrite <- Z.mul_mod_idemp_l by lia.
    change (10 ^ 16 mod 65536) with 0. reflexivity.
Qed.

Lemma getDigit_out_of_range_witness :
  getDigit 6 65535 = Some 1 /\ getDigit 17 65535 = None.
Proof.
  destruct getDigit_out_of_range as (_ & H6 & H17). split.
  - exact (H6 65535 ltac:(lia)).
  - exact (H17 17 65535 ltac:(lia)).
Defined.

(** ** The glyph encoder, further *)

(** X4: [translate] yields the blank glyph for exactly the cells outside
    the printable range 0x21..0x7E: the space, the control characters,
    DEL and every cell from 0x80 on are blank, and every printable
    character other than the space lights at least one segment. *)
Theorem translate_blank_iff (c : byte) :
  translate c = 0 <-> is_printable c = false.
Proof.
  split; intros H; destruct c; solve [reflexivity | discriminate H].
Qed.

Lemma translate_blank_iff_witness :
  translate " " = 0 /\ is_printable "~" = true.
Proof.
  split.
  - exact (proj2 (translate_blank_iff " "%byte) eq_refl).
  - destruct (is_printable "~") eqn:E; [reflexivity|].
    apply (proj2 (translate_blank_iff "~"%byte)) in E. discriminate E.
Defined.

Lemma recommended_glyphs_NoDup : NoDup (translate <$> recommended).
Proof. compute_done. Qed.

(** X5: on the digits and the capital letters, the character set the
    sketch recommends, [translate] is injective: two different
    characters never share a glyph. *)
Theorem translate_injective_on_recommended (c1 c2 : byte) :
  c1 ∈ recommended -> c2 ∈ recommended ->
  c1 <> c2 -> translate c1 <> translate c2.
Proof.
  intros H1 H2 Hne E. apply Hne.
  apply list_elem_of_lookup in H1 as [k1 H1].
  apply list_elem_of_lookup in H2 as [k2 H2].
  assert (k1 = k2).
  { apply (NoDup_lookup (translate <$> recommended) k1 k2 (translate c1)).
    - exact recommended_glyphs_NoDup.
    - rewrite list_lookup_fmap, H1. reflexivity.
    - rewrite list_lookup_fmap, H2, E. reflexivity. }
  subst k2. congruence.
Qed.

Lemma translate_injective_on_recommended_witness :
  translate "0" <> translate "O".
Proof.
  apply translate_injective_on_recommended;
    [compute_done | compute_done | discriminate].
Defined.

(** ** [setup], further *)

Lemma read_message_inv (fuel : nat) :
  forall ee temp i msg m,
  1 <= i <= temp -> temp <= 128 ->
  read_message fuel ee temp i msg = Some m ->
  exists n : nat,
    m = msg ++ stored ee i (Z.of_nat n + 1) /\
    i + Z.of_nat n <= temp /\
    (forall a, i <= a < i + Z.of_nat n -> EEPROM.read ee a <> x00) /\
    (i + Z.of_nat n = temp \/ EEPROM.read ee (i + Z.of_nat n) = x00).
Proof.
  induction fuel as [|fuel IH]; intros ee temp i msg m Hi Ht H;
    [discriminate H|].
  rewrite read_message_step in H by lia.
  destruct (Z.leb_spec (i + 1) temp) as [Hle | Hgt]; cbn [andb] in H.
  - destruct (decide (EEPROM.read ee i = x00)) as [E | E].
    + rewrite (bool_decide_eq_true_2 _ E) in H. cbn [negb] in H.
      injection H as <-. exists 0%nat. change (Z.of_nat 0) with 0.
      rewrite Z.add_0_r. rewrite (stored_cons ee i (0 + 1)) by lia.
      split; [reflexivity|]. split; [lia|]. split; [intros; lia | auto].
    + rewrite (bool_decide_eq_false_2 _ E) in H. cbn [negb] in H.
      destruct (IH ee temp (i + 1) _ m ltac:(lia) Ht H) as (n & Hm & Hn & Hnz & Hend).
      exists (S n). rewrite Hm, <- app_assoc. cbn [app].
      rewrite (stored_cons ee i (Z.of_nat (S n) + 1)) by lia.
      replace (Z.of_nat (S n) + 1 - 1) with (Z.of_nat n + 1) by lia.
      split; [reflexivity|]. split; [lia|]. split.
      * intros a Ha. destruct (decide (a = i)) as [-> | Hne]; [exact E|].
        apply Hnz. lia.
      * replace (i + Z.of_nat (S n)) with (i + 1 + Z.of_nat n) by lia. exact Hend.
  - injection H as <-. exists 0%nat. change (Z.of_nat 0) with 0.
    rewrite Z.add_0_r. rewrite (stored_cons ee i (0 + 1)) by lia.
    split; [reflexivity|]. split; [lia|]. split; [intros; lia | left; lia].
Qed.

(** X6: whatever the EEPROM holds, [setup] completes, leaves the EEPROM
    as it found it, and starts the scan at offset 0 and frame 0 with a
    message of 1 to 128 characters whose length is [mesgLen]; from that
    state a pass of [loop] is defined for any serial input. *)
Theorem setup_always_boots (ee : gmap Z byte) :
  exists s, setup ee = Some s /\
    eeprom s = ee /\ j s = 0 /\ loops s = 0 /\
    1 <= WString.length (message s) <= 128 /\
    mesgLen s = WString.length (message s) /\
    (forall rx, exists s' out, loop rx s = Some (s', out)).
Proof.
  assert (H : exists s, setup ee = Some s /\
    eeprom s = ee /\ j s = 0 /\ loops s = 0 /\
    1 <= WString.length (message s) <= 128 /\
    mesgLen s = WString.length (message s)).
  { destruct (decide (1 <= Z_of_cell (EEPROM.read ee 0) <= 128)) as [H | H].
    - destruct (setup_stored ee H) as (m & _ & Hlen & Hs).
      eexists. split; [exact Hs|]. cbn [message mesgLen j loops eeprom].
      repeat split; lia.
    - eexists. split; [exact (setup_default ee H)|].
      cbn [message mesgLen j loops eeprom]. repeat split; vm_compute; congruence. }
  destruct H as (s & Hs & He & Hj & Hl & Hlen & HL).
  exists s. repeat (split; [assumption || lia|]).
  intros rx.
  assert (Hok : scan_ok s).
  { unfold scan_ok. rewrite HL, Hj, Hl. rewrite to_byte_small by lia.
    repeat split; lia. }
  destruct (loop_some rx s Hok) as [out Hout]. eauto.
Qed.

(** X7: with a stored length [L] in 1..128, the message that [setup]
    installs is the run of EEPROM cells from address 1 up to and
    including the first null cell, or the [L] cells counted when no
    cell before the last is null. *)
Theorem setup_loads_to_first_null (ee : gmap Z byte) (s : State) :
  1 <= Z_of_cell (EEPROM.read ee 0) <= 128 ->
  setup ee = Some s ->
  let L := Z_of_cell (EEPROM.read ee 0) in
  let n := WString.length (message s) in
  message s = stored ee 1 n /\ mesgLen s = n /\ 1 <= n <= L /\
  (forall a, 1 <= a < n -> EEPROM.read ee a <> x00) /\
  (n = L \/ EEPROM.read ee n = x00).
Proof.
  intros HL Hs L n.
  destruct (setup_stored ee HL) as (m & Hm & Hlen & Hs').
  rewrite Hs in Hs'. injection Hs' as ->. cbn [message mesgLen] in *.
  fold L in Hm, Hlen.
  destruct (read_message_inv 256 ee L 1 [] m ltac:(lia) ltac:(lia) Hm)
    as (k & E & Hk & Hnz & Hend).
  cbn [app] in E.
  assert (Hn : WString.length m = Z.of_nat k + 1).
  { rewrite E at 1. unfold WString.length, stored.
    rewrite length_map, length_seqZ. lia. }
  subst n. rewrite Hn. split; [exact E|]. split; [reflexivity|]. split; [lia|].
  split.
  - intros a Ha. apply Hnz. lia.
  - replace (Z.of_nat k + 1) with (1 + Z.of_nat k) by lia.
    destruct Hend as [H | H]; [left; exact H | right; exact H].
Qed.

Lemma setup_loads_to_first_null_witness :
  exists s, setup store_with_null = Some s /\
    message s = stored store_with_null 1 2 /\
    EEPROM.read store_with_null 2 = x00.
Proof.
  destruct (setup store_with_null) as [s|] eqn:E; [|vm_compute in E; discriminate E].
  exists s. split; [reflexivity|].
  assert (HL : 1 <= Z_of_cell (EEPROM.read store_with_null 0) <= 128)
    by (vm_compute; split; discriminate).
  destruct (setup_loads_to_first_null store_with_null s HL E) as (Hm & _).
  assert (Hn : WString.length (message s) = 2).
  { vm_compute in E. injection E as <-. reflexivity. }
  rewrite Hn in Hm. split; [exact Hm | reflexivity].
Defined.

(** ** The EEPROM, further *)

(** Every cell after the writes of a replacement, for any length [L]. *)
Lemma read_after_writes (M : list byte) (L : Z) (ee : gmap Z byte) (a : Z) :
  0 <= L ->
  EEPROM.read (EEPROM.write_all ee (message_writes M L)) a
  = if a =? L + 1 then x00
    else if (1 <=? a) && (a <=? L) then WString.charAt M (a - 1)
    else if a =? 0 then cell_of_Z L
    else EEPROM.read ee a.
Proof.
  intros HL. unfold message_writes.
  change ((0, cell_of_Z L) :: ?l) with ([(0, cell_of_Z L)] ++ l).
  rewrite !write_all_app. cbn [EEPROM.write_all foldl fst snd].
  destruct (Z.eqb_spec a (L + 1)) as [-> | Hne]; [apply read_write_eq|].
  rewrite read_write_ne by congruence.
  rewrite read_write_chars_Z by assumption.
  destruct ((1 <=? a) && (a <=? L)); [reflexivity|].
  destruct (Z.eqb_spec a 0) as [-> | Hne0]; [apply read_write_eq|].
  apply read_write_ne. congruence.
Qed.

Lemma stored_take (ee : gmap Z byte) (M : list byte) (L : Z) :
  0 <= L <= WString.length M ->
  (forall a, 1 <= a <= L -> EEPROM.read ee a = WString.charAt M (a - 1)) ->
  stored ee 1 L = take (Z.to_nat L) M.
Proof.
  intros HL H. unfold stored. apply list_eq. intros k.
  change (map ?f ?l) with (f <$> l). rewrite list_lookup_fmap, lookup_take.
  destruct (decide (k < Z.to_nat L)%nat) as [Hk | Hk].
  - rewrite lookup_seqZ_lt by lia. cbn [fmap option_fmap option_map].
    rewrite H by lia.
    replace (1 + Z.of_nat k - 1) with (Z.of_nat k) by lia.
    symmetry. apply charAt_lookup_nat. lia.
  - rewrite lookup_seqZ_ge by lia. reflexivity.
Qed.

(** X8: a replacement writes the EEPROM at the addresses 0 to
    [mesgLen + 1] only: every cell at a higher address, hence every cell
    above address 256, keeps its content (a shorter message leaves the
    tail of a longer one in place). *)
Theorem replacement_write_footprint (rx : list byte) (s : State) :
  let L := to_byte (WString.length rx) in
  (forall a, a < 0 \/ L + 1 < a ->
     EEPROM.read (eeprom (serial_input rx s)) a = EEPROM.read (eeprom s) a) /\
  (forall a, 256 < a ->
     EEPROM.read (eeprom (serial_input rx s)) a = EEPROM.read (eeprom s) a).
Proof.
  intros L.
  assert (HL : 0 <= L < 256) by apply to_byte_range.
  assert (H : forall a, a < 0 \/ L + 1 < a ->
     EEPROM.read (eeprom (serial_input rx s)) a = EEPROM.read (eeprom s) a).
  { intros a Ha. destruct rx as [|c rx]; [reflexivity|].
    rewrite serial_input_cons. cbn [eeprom]. fold L.
    rewrite read_after_writes by lia.
    destruct (Z.eqb_spec a (L + 1)); [exfalso; lia|].
    destruct (Z.leb_spec 1 a), (Z.leb_spec a L); cbn [andb];
      try (exfalso; lia);
      (destruct (Z.eqb_spec a 0); [exfalso; lia | reflexivity]). }
  split; [exact H|]. intros a Ha. apply H. lia.
Qed.

Lemma replacement_write_footprint_witness :
  EEPROM.read (eeprom (serial_input (list_byte_of_string "HI") hello_mid_scroll)) 4
  = EEPROM.read (eeprom hello_mid_scroll) 4.
Proof.
  apply (proj1 (replacement_write_footprint (list_byte_of_string "HI")
                  hello_mid_scroll)).
  right. vm_compute. reflexivity.
Defined.

(** X9: what the next [setup] finds after a replacement by a message
    [M], with [L] the length of [M] modulo 256 as stored. If [L] is not
    in 1..128 (a message of 129 to 256 characters, for one) the message
    is dropped for the default one. If [L] is in 1..128 and no character
    before the [L]-th is null, the first [L] characters of [M] come
    back: all of [M] up to 128 characters, a truncation beyond 256. *)
Theorem reboot_after_replacement (M : list byte) (s : State) :
  M <> [] ->
  let L := to_byte (WString.length M) in
  let ee := eeprom (serial_input M s) in
  (~ (1 <= L <= 128) ->
     setup ee = Some {| message := default_message; mesgLen := 44;
                        j := 0; loops := 0; eeprom := ee |}) /\
  (1 <= L <= 128 ->
     (forall k, Z.of_nat k < L - 1 -> M !! k <> Some x00) ->
     setup ee = Some {| message := take (Z.to_nat L) M; mesgLen := L;
                        j := 0; loops := 0; eeprom := ee |}).
Proof.
  intros HM L ee.
  assert (HL : 0 <= L < 256) by apply to_byte_range.
  assert (HLM : L <= WString.length M).
  { unfold L, to_byte. apply Z.mod_le; unfold WString.length; lia. }
  assert (Hee : forall a, EEPROM.read ee a
     = if a =? L + 1 then x00
       else if (1 <=? a) && (a <=? L) then WString.charAt M (a - 1)
       else if a =? 0 then cell_of_Z L
       else EEPROM.read (eeprom s) a).
  { intros a. subst ee. destruct M as [|c M]; [congruence|].
    rewrite serial_input_cons. cbn [eeprom]. fold L.
    apply read_after_writes. lia. }
  assert (H0 : Z_of_cell (EEPROM.read ee 0) = L).
  { rewrite Hee. destruct (Z.eqb_spec 0 (L + 1)); [exfalso; lia|].
    destruct (Z.leb_spec 0 L); cbn [Z.leb Z.compare andb Z.eqb];
      rewrite Z_of_cell_of_Z; apply Z.mod_small; lia. }
  split.
  - intros Hout. apply setup_default. rewrite H0. exact Hout.
  - intros Hin Hnz.
    assert (Hc : forall a, 1 <= a <= L ->
              EEPROM.read ee a = WString.charAt M (a - 1)).
    { intros a Ha. rewrite Hee.
      destruct (Z.eqb_spec a (L + 1)); [exfalso; lia|].
      destruct (Z.leb_spec 1 a); [|exfalso; lia].
      destruct (Z.leb_spec a L); [|exfalso; lia]. reflexivity. }
    pose proof (stored_take ee M L ltac:(lia) Hc) as Hst.
    destruct (setup_stored ee) as (m & Hm & _ & Hs); [rewrite H0; exact Hin|].
    rewrite H0 in Hm.
    rewrite (read_message_spec (Z.to_nat (L - 1))) in Hm; try lia.
    + replace (Z.of_nat (Z.to_nat (L - 1)) + 1) with L in Hm by lia.
      rewrite Hst in Hm. cbn [app] in Hm. injection Hm as <-.
      rewrite Hs. do 2 f_equal.
      unfold WString.length. rewrite length_take.
      unfold WString.length in HLM. lia.
    + intros a Ha. rewrite Hc by lia. intros E.
      apply (Hnz (Z.to_nat (a - 1))); [lia|].
      rewrite <- E. apply charAt_lookup. lia.
Qed.

Lemma reboot_after_replacement_witness :
  message <$> setup (eeprom (serial_input (replicate 130 "A"%byte) abcd))
  = Some default_message /\
  message <$> setup (eeprom (serial_input (replicate 257 "A"%byte) abcd))
  = Some ["A"%byte].
Proof.
  split.
  - pose proof (reboot_after_replacement (replicate 130 "A"%byte) abcd
                  ltac:(discriminate)) as [H _].
    rewrite H; [reflexivity|].
    vm_compute. intros [_ Hle]. apply Hle. reflexivity.
  - pose proof (reboot_after_replacement (replicate 257 "A"%byte) abcd
                  ltac:(discriminate)) as [_ H].
    rewrite H; [reflexivity | vm_compute; split; discriminate |].
    intros k Hk. exfalso. vm_compute in Hk. destruct k; discriminate Hk.
Defined.

(** ** The scroll *)

Lemma State_eq (s s' : State) :
  message s' = message s -> mesgLen s' = mesgLen s -> j s' = j s ->
  loops s' = loops s -> eeprom s' = eeprom s -> s' = s.
Proof.
  destruct s, s'. cbn. intros -> -> -> -> ->. reflexivity.
Qed.

(** X10: with no serial traffic the scan is periodic: after ten cycles
    for each character of the message (10 * [mesgLen] passes of [loop])
    the program is back in the very same state. *)
Theorem scroll_period (s : State) :
  scan_ok s ->
  cycles (10 * Z.to_nat (mesgLen s)) s = Some s.
Proof.
  intros Hok.
  destruct (cycles_closed_form (10 * Z.to_nat (mesgLen s)) s Hok)
    as (s' & Hc & Hm & HL & He & Hlp & Hjp).
  rewrite Hc. f_equal.
  destruct Hok as (H1 & _ & Hj & Hl).
  replace (Z.of_nat (10 * Z.to_nat (mesgLen s))) with (mesgLen s * 10) in Hlp, Hjp by lia.
  apply State_eq; try assumption.
  - rewrite Hjp, Z.div_add, (Z.div_small (loops s)), Z.add_0_l by lia.
    replace (j s + mesgLen s) with (j s + 1 * mesgLen s) by lia.
    rewrite Z.mod_add, Z.mod_small by lia. reflexivity.
  - rewrite Hlp, Z.mod_add, Z.mod_small by lia. reflexivity.
Qed.

Lemma scroll_period_witness :
  cycles 60 hello_mid_scroll = Some hello_mid_scroll.
Proof.
  apply (scroll_period hello_mid_scroll). vm_compute. intuition congruence.
Defined.

(** X11: when the window moves on, the display scrolls by one digit:
    after the frame step taken at [loops = 9], scan position [i] shows
    what position [i - 1] showed before, for [i] = 1, 2, 3. *)
Theorem scroll_shifts_window (s : State) :
  scan_ok s -> loops s = 9 ->
  exists s', next_frame s = Some s' /\
    forall i, 1 <= i < 4 -> scan_glyph s' i = scan_glyph s (i - 1).
Proof.
  intros Hok H9. exists (tick s). split; [apply next_frame_tick; exact Hok|].
  destruct Hok as (H1 & _ & Hj & _).
  intros i Hi. unfold scan_glyph.
  assert (Hb : 0 <= (j s + 1) mod mesgLen s < mesgLen s)
    by (apply Z.mod_pos_bound; lia).
  assert (Et : tick s = {| message := message s; mesgLen := mesgLen s;
                           j := (j s + 1) mod mesgLen s; loops := 0;
                           eeprom := eeprom s |}).
  { unfold tick. rewrite H9. reflexivity. }
  rewrite Et.
  rewrite !scan_index_some by (cbn [j mesgLen]; lia).
  cbn [j mesgLen message mbind option_bind].
  do 3 f_equal.
  replace ((j s + 1) mod mesgLen s + 3 - i)
    with ((j s + 1) mod mesgLen s + (3 - i)) by lia.
  rewrite Z.add_mod_idemp_l by lia. f_equal. lia.
Qed.

Lemma scroll_shifts_window_witness :
  exists s',
    next_frame {| message := message abcd; mesgLen := 4; j := 0; loops := 9;
                  eeprom := ∅ |} = Some s' /\
    scan_glyph s' 1 = Some (translate "D").
Proof.
  destruct (scroll_shifts_window
              {| message := message abcd; mesgLen := 4; j := 0; loops := 9;
                 eeprom := ∅ |}) as (s' & Hn & Hs).
  - vm_compute. intuition congruence.
  - reflexivity.
  - exists s'. split; [exact Hn|]. rewrite (Hs 1) by lia. reflexivity.
Defined.

(** X12: the display as a function of time. From a state as [loop]
    needs it, after [n] passes with no serial traffic scan position [i]
    shows the message character at index
    [(j + (loops + n) / 10 + 3 - i) mod mesgLen]. *)
Theorem display_after_cycles (s : State) (n : nat) (i : Z) :
  scan_ok s -> 0 <= i < 4 ->
  exists s', cycles n s = Some s' /\
    scan_glyph s' i =
      Some (translate (WString.charAt (message s)
              ((j s + (loops s + Z.of_nat n) / 10 + 3 - i) mod mesgLen s))).
Proof.
  intros Hok Hi.
  destruct (cycles_closed_form n s Hok) as (s' & Hc & Hm & HL & _ & _ & Hjp).
  exists s'. split; [exact Hc|].
  destruct Hok as (H1 & _ & Hj & Hl).
  pose proof (Z.mod_pos_bound (j s + (loops s + Z.of_nat n) / 10) (mesgLen s)
                ltac:(lia)) as Hb.
  unfold scan_glyph.
  rewrite scan_index_some by (rewrite ?HL, ?Hjp; lia).
  cbn [mbind option_bind]. rewrite Hm, HL, Hjp. do 3 f_equal.
  replace ((j s + (loops s + Z.of_nat n) / 10) mod mesgLen s + 3 - i)
    with ((j s + (loops s + Z.of_nat n) / 10) mod mesgLen s + (3 - i)) by lia.
  rewrite Z.add_mod_idemp_l by lia. f_equal. lia.
Qed.

Lemma display_after_cycles_witness :
  exists s', cycles 25 abcd = Some s' /\ scan_glyph s' 0 = Some (translate "B").
Proof.
  destruct (display_after_cycles abcd 25 0) as (s' & Hc & Hg).
  - vm_compute. intuition congruence.
  - lia.
  - exists s'. split; [exact Hc | exact Hg].
Defined.

(** X13: a replacement is shown from its start. With [L] the stored
    length (the length of the burst modulo 256) at least 1, the first
    refresh after the replacement shows at scan position [i] the
    character at index [(3 - i) mod L] of the new message; for a message
    of at least four characters, positions 3, 2, 1, 0 show its first
    four characters in order. *)
Theorem new_message_shown_from_start (rx : list byte) (s : State) (i : Z) :
  let L := to_byte (WString.length rx) in
  1 <= L -> 0 <= i < 4 ->
  scan_glyph (serial_input rx s) i
    = Some (translate (WString.charAt rx ((3 - i) mod L))) /\
  (4 <= L ->
     scan_glyph (serial_input rx s) i = Some (translate (WString.charAt rx (3 - i)))).
Proof.
  intros L HL Hi.
  assert (E : scan_glyph (serial_input rx s) i
              = Some (translate (WString.charAt rx ((3 - i) mod L)))).
  { destruct rx as [|c rx]; [exfalso; vm_compute in HL; congruence|].
    rewrite serial_input_cons. unfold scan_glyph.
    rewrite scan_index_some by (cbn [j mesgLen]; lia).
    cbn [j mesgLen message mbind option_bind Z.add]. reflexivity. }
  split; [exact E|]. intros H4. rewrite E, Z.mod_small by lia. reflexivity.
Qed.

Lemma new_message_shown_from_start_witness :
  scan_glyph (serial_input (list_byte_of_string "HELLO") hello_mid_scroll) 3
  = Some (translate "H").
Proof.
  refine (proj2 (new_message_shown_from_start (list_byte_of_string "HELLO")
                   hello_mid_scroll 3 _ _) _);
    first [lia | vm_compute; discriminate].
Defined.

(** X14: a message shorter than the display repeats on it: scan
    positions [i] and [i + mesgLen] show the same character. *)
Theorem short_message_repeats (s : State) (i : Z) :
  0 <= j s -> 1 <= mesgLen s -> 0 <= i -> i + mesgLen s < 4 ->
  scan_glyph s (i + mesgLen s) = scan_glyph s i.
Proof.
  intros Hj HL Hi Hlt. unfold scan_glyph.
  rewrite !scan_index_some by lia. cbn [mbind option_bind]. do 3 f_equal.
  replace (j s + 3 - (i + mesgLen s)) with (j s + 3 - i + (-1) * mesgLen s) by lia.
  apply Z.mod_add. lia.
Qed.

Lemma short_message_repeats_witness :
  scan_glyph ab_message 2 = scan_glyph ab_message 0.
Proof.
  apply (short_message_repeats ab_message 0); vm_compute; congruence.
Defined.

(** ** What [loop] keeps *)

(** X15: as long as no serial burst is longer than 255 cells, every
    state the program reaches is one [loop] can run from: the pass is
    defined for any input, sends exactly four byte pairs, and every
    index of the scan falls inside the message. *)
Theorem loop_defined_within_255 (s : State) :
  reachable_within 255 s ->
  scan_ok s /\
  (forall rx, exists s' out, loop rx s = Some (s', out) /\ List.length out = 4%nat) /\
  (forall i, 0 <= i < 4 ->
     exists idx, scan_index s i = Some idx /\ 0 <= idx < WString.length (message s)).
Proof.
  intros Hr. pose proof (within_255_scan_ok s Hr) as Hok.
  split; [exact Hok|]. split.
  - intros rx. destruct (loop_some rx s Hok) as [out Hout].
    exists (serial_input rx (tick s)), out. split; [exact Hout|].
    destruct (loop_inv _ _ _ _ Hout) as (_ & Href & _).
    rewrite refresh_some in Href by (destruct Hok as (? & _ & ? & _); lia).
    injection Href as <-. reflexivity.
  - intros i Hi. exact (scan_index_in_bounds s i Hok Hi).
Qed.

Lemma loop_defined_within_255_witness :
  exists s, setup (∅ : gmap Z byte) = Some s /\ scan_ok s.
Proof.
  destruct (setup_scan_ok ∅) as (s & Hs & _).
  exists s. split; [exact Hs|].
  exact (proj1 (loop_defined_within_255 s (within_setup 255 ∅ s Hs))).
Defined.

(** X16: as long as no serial burst is longer than 128 cells, the
    message always has 1 to 128 characters, [mesgLen] is its length, the
    window offset is below it and the frame counter is below 10. *)
Theorem message_bounded_within_128 (s : State) :
  reachable_within 128 s ->
  1 <= WString.length (message s) <= 128 /\
  mesgLen s = WString.length (message s) /\
  0 <= j s < WString.length (message s) /\
  0 <= loops s < 10.
Proof.
  intros Hr. destruct (within_128_length s Hr) as ((_ & _ & Hj & Hl) & Hlen & HL).
  repeat split; lia.
Qed.

Lemma message_bounded_within_128_witness :
  exists s, setup store_with_null = Some s /\ mesgLen s = WString.length (message s).
Proof.
  destruct (setup_scan_ok store_with_null) as (s & Hs & _).
  exists s. split; [exact Hs|].
  exact (proj1 (proj2 (message_bounded_within_128 s
                         (within_setup 128 store_with_null s Hs)))).
Defined.

(** X17: a replacement leaves a state [loop] can run from exactly when
    the burst is empty or its length is not a multiple of 256. *)
Theorem replacement_keeps_scan_iff (rx : list byte) (s : State) :
  scan_ok s ->
  (scan_ok (serial_input rx s) <->
   rx = [] \/ to_byte (WString.length rx) <> 0).
Proof.
  intros Hok. destruct rx as [|c rx].
  - rewrite serial_input_nil. split; [intros _; left; reflexivity | intros _; exact Hok].
  - rewrite serial_input_cons. unfold scan_ok. cbn [message mesgLen j loops].
    pose proof (to_byte_range (WString.length (c :: rx))).
    split.
    + intros (H1 & _). right. lia.
    + intros [Hnil | Hne]; [discriminate Hnil|]. repeat split; lia.
Qed.

Lemma replacement_keeps_scan_iff_witness :
  ~ scan_ok (serial_input (replicate 256 "A"%byte) hello_mid_scroll).
Proof.
  intros H.
  apply (proj1 (replacement_keeps_scan_iff (replicate 256 "A"%byte)
                  hello_mid_scroll ltac:(vm_compute; intuition congruence))) in H.
  destruct H as [H | H]; [discriminate H | apply H; vm_compute; reflexivity].
Defined.

(** ** The bits on the wire *)

Lemma trace_check_all (t i : Z) :
  0 <= t < 2 ^ 14 -> 0 <= i < 4 -> trace_check t i = true.
Proof.
  intros Ht Hi.
  pose (P := fun t => forallb (fun i => trace_check t i) (seqZ 0 4)).
  assert (H : P t = true).
  { apply (forallb_below P (2 ^ 14)); [vm_compute; reflexivity | exact Ht]. }
  exact (forallb_below _ 4 H i Hi).
Qed.

(** X18: for a character [c] on digit [i], the strobe is lowered, sixteen
    bits are clocked out, and the strobe is raised, followed by the
    settle delay of 6; the sixteen bits are, in order, the two bits of
    the digit address [i] and the fourteen segment bits of the glyph of
    [c], from bit 13 down to bit 0. *)
Theorem digit_trace_bits (c : byte) (i : Z) :
  0 <= i < 4 ->
  let tr := digit_trace (shift_bytes (translate c) i) in
  clocked_bits false tr = address_then_segments (translate c) i /\
  List.length (clocked_bits false tr) = 16%nat /\
  head tr = Some (Strobe false) /\
  drop 33 tr = [Strobe true; Delay 6] /\
  Forall (fun e => forall b, e <> Strobe b) (take 32 (drop 1 tr)).
Proof.
  intros Hi tr.
  pose proof (trace_check_all (translate c) i (translate_range c) Hi) as H.
  unfold trace_check in H. apply bool_decide_eq_true_1 in H. fold tr in H.
  split; [exact H|]. split; [rewrite H; reflexivity|].
  split; [reflexivity|]. split; [reflexivity|].
  subst tr. unfold digit_trace, shiftOut.
  change (seqZ 0 8) with [0; 1; 2; 3; 4; 5; 6; 7].
  cbn [flat_map app drop take].
  repeat (constructor; [intros b; discriminate|]). constructor.
Qed.

Lemma digit_trace_bits_witness :
  clocked_bits false (digit_trace (shift_bytes (translate "K") 2))
  = [ true; false;
      false; true; false; false; true; false;
      true; false; true; true; false; false; false; false ].
Proof.
  exact (proj1 (digit_trace_bits "K"%byte 2 ltac:(lia))).
Defined.

(** ** Persistence over time *)

(** X19: a received message survives a power cycle at any later time.
    For a message of 1 to 128 characters with no null character before
    its last one, after any number of passes of [loop] with no further
    serial traffic, [setup] run on the EEPROM as it then is installs
    that message again, at offset 0 and frame 0. *)
Theorem message_survives_power_cycle (M : list byte) (s : State) (n : nat) :
  1 <= WString.length M <= 128 ->
  (forall k, Z.of_nat k < WString.length M - 1 -> M !! k <> Some x00) ->
  exists s', cycles n (serial_input M s) = Some s' /\
    message s' = M /\
    setup (eeprom s')
      = Some {| message := M; mesgLen := WString.length M; j := 0; loops := 0;
                eeprom := eeprom s' |}.
Proof.
  intros HL Hnz.
  assert (Es : serial_input M s
               = {| message := M; mesgLen := WString.length M; j := 0; loops := 0;
                    eeprom := EEPROM.write_all (eeprom s)
                                (message_writes M (WString.length M)) |}).
  { destruct M as [|c M];
      [exfalso; unfold WString.length in HL; cbn [List.length] in HL; lia|].
    rewrite serial_input_cons. cbn zeta.
    rewrite (to_byte_small (WString.length (c :: M))) by lia. reflexivity. }
  rewrite Es.
  match goal with |- context [cycles n ?x] => set (s1 := x) end.
  assert (Hok : scan_ok s1).
  { subst s1. unfold scan_ok. cbn [message mesgLen j loops].
    rewrite to_byte_small by lia. repeat split; lia. }
  destruct (cycles_closed_form n s1 Hok) as (s' & Hc & Hm & _ & He & _).
  exists s'. split; [exact Hc|]. split; [exact Hm|].
  rewrite He. subst s1. cbn [eeprom].
  exact (proj2 (proj2 (proj2 (store_then_setup M (eeprom s) HL Hnz)))).
Qed.

Lemma message_survives_power_cycle_witness :
  exists s', cycles 37 (serial_input (list_byte_of_string "HI") abcd) = Some s' /\
    message <$> setup (eeprom s') = Some (list_byte_of_string "HI").
Proof.
  destruct (message_survives_power_cycle (list_byte_of_string "HI") abcd 37)
    as (s' & Hc & _ & Hs).
  - vm_compute. split; discriminate.
  - intros [|[|k]] Hk; vm_compute in Hk |- *; discriminate.
  - exists s'. split; [exact Hc|]. rewrite Hs. reflexivity.
Defined.
